(** * CodeSensei: the voice path

    A shallow embedding of the two functions of the application that
    carry the synthesized voice from the provider's response to the
    loudspeaker:

    - [generateSenseiVoice] (services/geminiService.ts), which extracts
      the base64 audio payload from the provider's response, and
    - [playVoice] (App.tsx), which decodes that payload into 16-bit PCM
      samples, normalizes them to 32-bit floats and starts playback on
      a lazily created [AudioContext].

    The functions of the host platform that [playVoice] calls ([atob],
    the typed-array constructors, the Web Audio factory methods) are
    embedded after the standards that define them (the HTML Standard's
    forgiving-base64 decode, ECMAScript's typed arrays, the Web Audio
    API); each definition cites the step it follows. *)

From Stdlib Require Import ZArith List Bool Ascii String QArith Lia.
From Stdlib Require Import SpecFloat.
Import ListNotations.

Set Implicit Arguments.
Local Open Scope Z_scope.

(** ** JavaScript values and completions *)

Module Js.

(** The values that can reach [playVoice]'s parameter and that the
    optional chain of [generateSenseiVoice] can produce.  A string is
    given by its characters of code at most 255: the characters of the
    base64 alphabet, of its padding and of whitespace are among them,
    and so is every character of a binary string. *)
Inductive value : Type :=
| Undefined
| Null
| Str (s : string).

(** ToBoolean, restricted to [value]: [undefined], [null] and the
    empty string are falsy, every other string is truthy. *)
Definition truthy (v : value) : bool :=
  match v with
  | Undefined | Null => false
  | Str EmptyString => false
  | Str (String _ _) => true
  end.

(** ToString, restricted to [value]. *)
Definition to_string (v : value) : string :=
  match v with
  | Undefined => "undefined"
  | Null => "null"
  | Str s => s
  end.

(** [a || b] *)
Definition or (a b : value) : value := if truthy a then a else b.

(** The exceptions the platform functions of this development throw. *)
Inductive error : Type :=
| InvalidCharacterError   (* DOMException thrown by atob *)
| RangeError              (* thrown by the typed-array constructors *)
| NotSupportedError       (* DOMException thrown by createBuffer *)
| TypeError.              (* a method called on null *)

(** A completion record: normal completion with a value, or a throw. *)
Inductive completion (A : Type) : Type :=
| Normal (a : A)
| Throw (e : error).
Arguments Throw {A} e.

(** The settled state of the promise an [async] function returns. *)
Inductive promise : Type :=
| Fulfilled
| Rejected (e : error).

End Js.

(** ** atob: forgiving-base64 decode *)

Module Base64.

Definition code (c : ascii) : Z := Z.of_N (N_of_ascii c).

(** ASCII whitespace: TAB, LF, FF, CR and SPACE. *)
Definition is_ascii_whitespace (c : ascii) : bool :=
  let n := code c in
  (n =? 9) || (n =? 10) || (n =? 12) || (n =? 13) || (n =? 32).

(** The value of a character in the base64 alphabet of RFC 4648,
    Table 1; [None] for every other character ([=] included). *)
Definition sextet (c : ascii) : option Z :=
  let n := code c in
  if (65 <=? n) && (n <=? 90) then Some (n - 65)          (* A-Z *)
  else if (97 <=? n) && (n <=? 122) then Some (n - 71)    (* a-z *)
  else if (48 <=? n) && (n <=? 57) then Some (n + 4)      (* 0-9 *)
  else if n =? 43 then Some 62                            (* + *)
  else if n =? 47 then Some 63                            (* / *)
  else None.

Definition remove_whitespace (data : list ascii) : list ascii :=
  filter (fun c => negb (is_ascii_whitespace c)) data.

Definition is_equals (c : ascii) : bool := code c =? 61.

(** Step 2: when the length is a multiple of four, one or two
    trailing [=] are removed. *)
Definition strip_padding (data : list ascii) : list ascii :=
  if (Z.of_nat (List.length data) mod 4 =? 0) then
    match rev data with
    | c1 :: c2 :: r =>
        if is_equals c1 then
          if is_equals c2 then rev r else rev (c2 :: r)
        else data
    | _ => data
    end
  else data.

(** Step 4: every remaining character has to be in the alphabet. *)
Fixpoint sextets (data : list ascii) : option (list Z) :=
  match data with
  | [] => Some []
  | c :: r =>
      match sextet c, sextets r with
      | Some v, Some vs => Some (v :: vs)
      | _, _ => None
      end
  end.

Definition byte_char (b : Z) : ascii := ascii_of_N (Z.to_N (Z.land b 255)).

(** Steps 5 to 9: four sextets give three bytes; a rest of three
    sextets (18 bits) gives two bytes, the last two bits discarded; a
    rest of two sextets (12 bits) gives one byte, the last four bits
    discarded. *)
Fixpoint bytes_of_sextets (vs : list Z) : list ascii :=
  match vs with
  | a :: b :: c :: d :: r =>
      let w := Z.lor (Z.lor (Z.shiftl a 18) (Z.shiftl b 12))
                     (Z.lor (Z.shiftl c 6) d) in
      byte_char (Z.shiftr w 16) :: byte_char (Z.shiftr w 8) :: byte_char w
        :: bytes_of_sextets r
  | [a; b; c] =>
      let w := Z.lor (Z.lor (Z.shiftl a 12) (Z.shiftl b 6)) c in
      [byte_char (Z.shiftr w 10); byte_char (Z.shiftr w 2)]
  | [a; b] =>
      let w := Z.lor (Z.shiftl a 6) b in
      [byte_char (Z.shiftr w 4)]
  | _ => []
  end.

(** Forgiving-base64 decode; [None] is the standard's "failure". *)
Definition forgiving_decode (data : string) : option string :=
  let d := strip_padding (remove_whitespace (list_ascii_of_string data)) in
  if (Z.of_nat (List.length d) mod 4 =? 1) then None
  else
    match sextets d with
    | None => None
    | Some vs => Some (string_of_list_ascii (bytes_of_sextets vs))
    end.

(** [atob(data)]: the decoded binary string, one character per byte,
    or an "InvalidCharacterError" DOMException. *)
Definition atob (data : string) : Js.completion string :=
  match forgiving_decode data with
  | Some binary => Js.Normal binary
  | None => Js.Throw Js.InvalidCharacterError
  end.

(** The encoder of RFC 4648, section 4 ([btoa] on a binary string):
    used to state round trips; [playVoice] never calls it. *)
Definition alphabet : string :=
  "ABCDEFGHIJKLMNOPQRSTUVWXYZabcdefghijklmnopqrstuvwxyz0123456789+/".

Definition digit (v : Z) : ascii :=
  match get (Z.to_nat (Z.land v 63)) alphabet with
  | Some c => c
  | None => "="%char
  end.

Fixpoint encode_bytes (bs : list ascii) : list ascii :=
  match bs with
  | x :: y :: z :: r =>
      let w := Z.lor (Z.lor (Z.shiftl (code x) 16) (Z.shiftl (code y) 8))
                     (code z) in
      digit (Z.shiftr w 18) :: digit (Z.shiftr w 12) :: digit (Z.shiftr w 6)
        :: digit w :: encode_bytes r
  | [x; y] =>
      let w := Z.lor (Z.shiftl (code x) 16) (Z.shiftl (code y) 8) in
      [digit (Z.shiftr w 18); digit (Z.shiftr w 12); digit (Z.shiftr w 6);
       "="%char]
  | [x] =>
      let w := Z.shiftl (code x) 16 in
      [digit (Z.shiftr w 18); digit (Z.shiftr w 12); "="%char; "="%char]
  | [] => []
  end.

Definition btoa (binary : string) : string :=
  string_of_list_ascii (encode_bytes (list_ascii_of_string binary)).

End Base64.

(** ** Numbers: binary64 and binary32 *)

Module Num.

(** A JavaScript Number is an IEEE 754 binary64 value; an element of a
    [Float32Array] is a binary32 value.  Both are [spec_float]s, with
    precision and maximal exponent (53, 1024) and (24, 128). *)
Definition number := spec_float.
Definition float32 := spec_float.

(** The Number of an integer (exact below 2^53). *)
Definition of_Z (z : Z) : number := binary_normalize 53 1024 z 0 false.

(** [x / y] on Numbers. *)
Definition div (x y : number) : number := SFdiv 53 1024 x y.

(** Conversion of a Number to the nearest binary32 value (ties to
    even), as a store into a [Float32Array] performs it. *)
Definition fround (x : number) : float32 :=
  match x with
  | S754_finite s m e => binary_round 24 128 s m e
  | _ => x
  end.

(** The rational number a finite float denotes, in lowest terms. *)
Definition value (x : spec_float) : option Q :=
  match x with
  | S754_zero _ => Some (0 # 1)
  | S754_finite s m e =>
      let n := if s then Z.neg m else Z.pos m in
      Some (Qred (match e with
                  | Z.neg p => Qmake n (2 ^ p)
                  | _ => Qmake (n * 2 ^ e) 1
                  end))
  | _ => None
  end.

End Num.

(** ** Typed arrays *)

Module TypedArray.

(** [Uint8Array.from(binary, c => c.charCodeAt(0))]: one element per
    character of the binary string, its code converted by ToUint8. *)
Definition Uint8Array_from (binary : string) : list Z :=
  map (fun c => Base64.code c mod 256) (list_ascii_of_string binary).

(** The 16-bit two's complement integer of two bytes, low byte first
    (typed arrays use the byte order of the host, little-endian on
    the hosts that run a browser). *)
Definition int16_of_bytes (lo hi : Z) : Z :=
  let u := Z.lor lo (Z.shiftl hi 8) in
  if u <? 32768 then u else u - 65536.

Fixpoint int16_elements (buffer : list Z) : list Z :=
  match buffer with
  | lo :: hi :: r => int16_of_bytes lo hi :: int16_elements r
  | _ => []
  end.

(** [new Int16Array(buffer)] over a whole [ArrayBuffer]: ECMAScript's
    InitializeTypedArrayFromArrayBuffer throws a RangeError when the
    byte length is not a multiple of the element size. *)
Definition Int16Array_of_buffer (buffer : list Z) : Js.completion (list Z) :=
  if Z.of_nat (List.length buffer) mod 2 =? 0
  then Js.Normal (int16_elements buffer)
  else Js.Throw Js.RangeError.

(** [new Float32Array(n)]: [n] elements, all [+0]. *)
Definition Float32Array_new (n : nat) : list Num.float32 :=
  repeat (S754_zero false) n.

(** [a[i]] read as a Number; an index out of range reads [undefined],
    which arithmetic converts to NaN. *)
Definition element (a : list Z) (i : nat) : Num.number :=
  match nth_error a i with
  | Some s => Num.of_Z s
  | None => S754_nan
  end.

(** [a[i] = v] on a typed array; a write out of range is ignored. *)
Fixpoint store {A : Type} (a : list A) (i : nat) (v : A) : list A :=
  match a, i with
  | [], _ => []
  | _ :: r, O => v :: r
  | x :: r, S j => x :: store r j v
  end.

(** [target.set(source)] at offset 0; a source longer than the target
    throws a RangeError. *)
Definition set {A : Type} (target source : list A) : Js.completion (list A) :=
  if (List.length source <=? List.length target)%nat
  then Js.Normal (source ++ skipn (List.length source) target)
  else Js.Throw Js.RangeError.

End TypedArray.

(** ** Normalization *)

(** [dataInt16[i] / 32768.0], as it is stored into [normalizedData]. *)
Definition normalize (s : Z) : Num.float32 :=
  Num.fround (Num.div (Num.of_Z s) (Num.of_Z 32768)).

(** The body of the [for] loop at index [i]. *)
Definition normalize_step (dataInt16 : list Z)
    (normalizedData : list Num.float32) (i : nat) : list Num.float32 :=
  TypedArray.store normalizedData i
    (Num.fround (Num.div (TypedArray.element dataInt16 i) (Num.of_Z 32768))).

(** [for (let i = ...; i < dataInt16.length; i++) ...], with a bound on
    the number of iterations. *)
Fixpoint normalize_loop (fuel : nat) (dataInt16 : list Z)
    (normalizedData : list Num.float32) (i : nat) : list Num.float32 :=
  match fuel with
  | O => normalizedData
  | S fuel' =>
      if (i <? List.length dataInt16)%nat
      then normalize_loop fuel' dataInt16
             (normalize_step dataInt16 normalizedData i) (S i)
      else normalizedData
  end.

(** Lines 111 to 114 of [playVoice]: the loop runs from index 0 and
    leaves after at most [dataInt16.length] iterations. *)
Definition normalizedData_of (dataInt16 : list Z) : list Num.float32 :=
  normalize_loop (List.length dataInt16) dataInt16
    (TypedArray.Float32Array_new (List.length dataInt16)) 0.

(** ** The Web Audio objects and the world [playVoice] runs in *)

Definition ObjId := nat.

Record AudioContext : Type := mkAudioContext {
  ctx_id : ObjId;
  ctx_sampleRate : Z
}.

(** An [AudioBuffer]: [buf_length] is its [length] in sample frames,
    [channels] holds the data of each channel. *)
Record AudioBuffer : Type := mkAudioBuffer {
  buf_id : ObjId;
  numberOfChannels : Z;
  buf_length : Z;
  sampleRate : Z;
  channels : list (list Num.float32)
}.

(** An [AudioBufferSourceNode]: the context that made it, the buffer
    assigned to it and the context whose destination it is connected
    to. *)
Record AudioBufferSourceNode : Type := mkSource {
  src_id : ObjId;
  src_ctx : ObjId;
  src_buffer : option AudioBuffer;
  src_output : option ObjId
}.

(** The calls into the platform that a test double would record. *)
Inductive call : Type :=
| NewAudioContext (ctx : AudioContext)
| Atob (data : string)
| CreateBuffer (ctx : ObjId) (numberOfChannels length sampleRate : Z)
| CreateBufferSource (ctx : ObjId) (source : ObjId)
| Connect (source : ObjId) (ctx : ObjId)
| Start (source : AudioBufferSourceNode).

(** The state that outlives a call of [playVoice]: the allocator of
    object identities, [audioContextRef.current] (the [useRef] cell of
    the component) and the record of platform calls, oldest first. *)
Record World : Type := mkWorld {
  nextId : ObjId;
  audioContextRef : option AudioContext;
  calls : list call
}.

(** The world of a freshly mounted component:
    [useRef<AudioContext | null>(null)]. *)
Definition initial : World :=
  {| nextId := O; audioContextRef := None; calls := [] |}.

(** *** A state and exception monad *)

Definition M (A : Type) : Type := World -> Js.completion A * World.

Definition ret {A : Type} (a : A) : M A := fun w => (Js.Normal a, w).

Definition bind {A B : Type} (m : M A) (k : A -> M B) : M B :=
  fun w =>
    match m w with
    | (Js.Normal a, w') => k a w'
    | (Js.Throw e, w') => (Js.Throw e, w')
    end.

Declare Scope js_scope.
Delimit Scope js_scope with js.
Notation "x <- m ;; k" := (bind m (fun x => k))
  (at level 61, m at next level, right associativity) : js_scope.
Notation "m ;; k" := (bind m (fun _ => k))
  (at level 61, right associativity) : js_scope.

Definition throw {A : Type} (e : Js.error) : M A := fun w => (Js.Throw e, w).

(** A pure platform function that may throw. *)
Definition lift {A : Type} (c : Js.completion A) : M A := fun w => (c, w).

Definition record (c : call) : M unit :=
  fun w => (Js.Normal tt,
            {| nextId := nextId w;
               audioContextRef := audioContextRef w;
               calls := calls w ++ [c] |}).

Definition fresh : M ObjId :=
  fun w => (Js.Normal (nextId w),
            {| nextId := S (nextId w);
               audioContextRef := audioContextRef w;
               calls := calls w |}).

Definition read_audioContextRef : M (option AudioContext) :=
  fun w => (Js.Normal (audioContextRef w), w).

Definition write_audioContextRef (c : option AudioContext) : M unit :=
  fun w => (Js.Normal tt,
            {| nextId := nextId w; audioContextRef := c; calls := calls w |}).

(** An [async] function without [await]: its body runs to completion
    and settles the promise it returns. *)
Definition async (body : M unit) : World -> Js.promise * World :=
  fun w =>
    match body w with
    | (Js.Normal _, w') => (Js.Fulfilled, w')
    | (Js.Throw e, w') => (Js.Rejected e, w')
    end.

(** *** The platform calls *)

Local Open Scope js_scope.

(** [new AudioContext({ sampleRate })]; 24000 Hz lies in the range
    every implementation supports (8000 to 96000 Hz). *)
Definition new_AudioContext (rate : Z) : M AudioContext :=
  id <- fresh ;;
  let ctx := {| ctx_id := id; ctx_sampleRate := rate |} in
  record (NewAudioContext ctx) ;;
  ret ctx.

(** [atob(data)] *)
Definition atob (data : string) : M string :=
  record (Atob data) ;;
  lift (Base64.atob data).

(** [ctx.createBuffer(numberOfChannels, length, sampleRate)]: the Web
    Audio API has it throw a NotSupportedError when an argument is
    zero or negative; otherwise the buffer has [numberOfChannels]
    channels of [length] zeros. *)
Definition createBuffer (ctx : AudioContext) (nch len rate : Z) : M AudioBuffer :=
  record (CreateBuffer (ctx_id ctx) nch len rate) ;;
  if (nch <? 1) || (len <? 1) || (rate <? 1)
  then throw Js.NotSupportedError
  else
    id <- fresh ;;
    ret {| buf_id := id; numberOfChannels := nch; buf_length := len;
           sampleRate := rate;
           channels := repeat (TypedArray.Float32Array_new (Z.to_nat len))
                              (Z.to_nat nch) |}.

(** [buffer.getChannelData(0)] followed by [channelData.set(data)]:
    the channel data is a view on the buffer's memory, so the write
    lands in the buffer. *)
Definition setChannelData0 (buffer : AudioBuffer) (data : list Num.float32)
    : M AudioBuffer :=
  match channels buffer with
  | [] => throw Js.RangeError    (* getChannelData(0) on no channel *)
  | channelData :: others =>
      channelData' <- lift (TypedArray.set channelData data) ;;
      ret {| buf_id := buf_id buffer;
             numberOfChannels := numberOfChannels buffer;
             buf_length := buf_length buffer;
             sampleRate := sampleRate buffer;
             channels := channelData' :: others |}
  end.

(** [ctx.createBufferSource()] *)
Definition createBufferSource (ctx : AudioContext) : M AudioBufferSourceNode :=
  id <- fresh ;;
  record (CreateBufferSource (ctx_id ctx) id) ;;
  ret {| src_id := id; src_ctx := ctx_id ctx;
         src_buffer := None; src_output := None |}.

(** [source.connect(ctx.destination)] *)
Definition connect (source : AudioBufferSourceNode) (ctx : AudioContext)
    : M AudioBufferSourceNode :=
  record (Connect (src_id source) (ctx_id ctx)) ;;
  ret {| src_id := src_id source; src_ctx := src_ctx source;
         src_buffer := src_buffer source; src_output := Some (ctx_id ctx) |}.

(** [source.start()] *)
Definition start (source : AudioBufferSourceNode) : M unit :=
  record (Start source).

(** ** playVoice *)

(** [isVoiceEnabled] is the value of the component's state that the
    memoized callback closed over; [base64] is the argument.  The
    numbers are the lines of the source. *)
Definition playVoice (isVoiceEnabled : bool) (base64 : Js.value)
    : World -> Js.promise * World :=
  async (
    (* 93 *)
    if negb isVoiceEnabled || negb (Js.truthy base64) then ret tt
    else
      (* 95-97 *)
      current <- read_audioContextRef ;;
      match current with
      | None =>
          c <- new_AudioContext 24000 ;;
          write_audioContextRef (Some c)
      | Some _ => ret tt
      end ;;
      (* 98: the ref has just been filled; a use of null would raise
         a TypeError *)
      current <- read_audioContextRef ;;
      ctx <- match current with
             | Some c => ret c
             | None => throw Js.TypeError
             end ;;
      (* 102-103 *)
      binary <- atob (Js.to_string base64) ;;
      let bytes := TypedArray.Uint8Array_from binary in
      (* 105-107 *)
      dataInt16 <- lift (TypedArray.Int16Array_of_buffer bytes) ;;
      buffer <- createBuffer ctx 1 (Z.of_nat (List.length dataInt16)) 24000 ;;
      (* 111-115 *)
      let normalizedData := normalizedData_of dataInt16 in
      buffer <- setChannelData0 buffer normalizedData ;;
      (* 117-120; [source.buffer = buffer] is the update of the record *)
      source <- createBufferSource ctx ;;
      let source := {| src_id := src_id source; src_ctx := src_ctx source;
                       src_buffer := Some buffer;
                       src_output := src_output source |} in
      source <- connect source ctx ;;
      start source).

(** A session of the component: the calls of [playVoice] in order, each
    with the [isVoiceEnabled] its closure holds and its argument. *)
Fixpoint run (session : list (bool * Js.value)) (w : World) : World :=
  match session with
  | [] => w
  | (isVoiceEnabled, base64) :: rest =>
      run rest (snd (playVoice isVoiceEnabled base64 w))
  end.

(** ** generateSenseiVoice *)

Module Gemini.

(** The part of the provider's [GenerateContentResponse] that the
    function reads.  Every field is optional in the SDK's types; an
    absent (or null) field is [None], an absent [data] is
    [Js.Undefined]. *)
Record Blob : Type := mkBlob { data : Js.value }.
Record Part : Type := mkPart { inlineData : option Blob }.
Record Content : Type := mkContent { parts : option (list Part) }.
Record Candidate : Type := mkCandidate { content : option Content }.
Record GenerateContentResponse : Type := mkResponse {
  candidates : option (list Candidate)
}.

(** [a?.[0]]: [undefined] when [a] is nullish or has no element 0. *)
Definition first {A : Type} (a : option (list A)) : option A :=
  match a with
  | Some (x :: _) => Some x
  | _ => None
  end.

(** [o?.f] for an optional field [f]. *)
Definition field {A B : Type} (f : A -> option B) (o : option A) : option B :=
  match o with
  | Some x => f x
  | None => None
  end.

(** [response.candidates?.[0]?.content?.parts?.[0]?.inlineData?.data] *)
Definition audio_chain (response : GenerateContentResponse) : Js.value :=
  match field inlineData (first (field parts (field content
                                   (first (candidates response))))) with
  | Some blob => data blob
  | None => Js.Undefined
  end.

(** The value the function returns once the provider's call has
    resolved with [response]. *)
Definition generateSenseiVoice (response : GenerateContentResponse) : Js.value :=
  Js.or (audio_chain response) (Js.Str "").

End Gemini.

(** * Derived notions

    What the statements below speak of: the worlds a call leads to, the
    calls it records, and the tests used to state the claims. *)

Section Notions.

Import TypedArray.
Import Gemini.

(** The test [m * 2^e = s / 32768] on integers. *)
Definition exact_at (s : Z) : bool :=
  match normalize s with
  | S754_zero _ => s =? 0
  | S754_finite sg m (Z.neg p) =>
      (if sg then Z.neg m else Z.pos m) * 32768 =? s * Z.pos (2 ^ p)
  | _ => false
  end.

(** [f] holds of the [n] integers from [z] on. *)
Fixpoint all_from (n : nat) (f : Z -> bool) (z : Z) : bool :=
  match n with
  | O => true
  | S k => f z && all_from k f (z + 1)
  end.

(** [w] with the calls [cs] recorded after its own. *)
Definition with_calls (w : World) (cs : list call) : World :=
  {| nextId := nextId w;
     audioContextRef := audioContextRef w;
     calls := calls w ++ cs |}.

(** Lines 95 to 98: the context in use and the world once it is. *)
Definition acquire (w : World) : AudioContext * World :=
  match audioContextRef w with
  | Some c => (c, w)
  | None =>
      let c := {| ctx_id := nextId w; ctx_sampleRate := 24000 |} in
      (c, {| nextId := S (nextId w);
             audioContextRef := Some c;
             calls := calls w ++ [NewAudioContext c] |})
  end.

(** The buffer and the source node of a call that plays [dataInt16]
    on [ctx], the first identity free being [id]. *)
Definition played_buffer (id : ObjId) (dataInt16 : list Z) : AudioBuffer :=
  {| buf_id := id;
     numberOfChannels := 1;
     buf_length := Z.of_nat (List.length dataInt16);
     sampleRate := 24000;
     channels := [map normalize dataInt16] |}.

Definition played_source (ctx : AudioContext) (id : ObjId)
    (dataInt16 : list Z) : AudioBufferSourceNode :=
  {| src_id := S id;
     src_ctx := ctx_id ctx;
     src_buffer := Some (played_buffer id dataInt16);
     src_output := Some (ctx_id ctx) |}.

(** The calls of lines 102 to 120 when everything succeeds. *)
Definition playback_calls (ctx : AudioContext) (id : ObjId)
    (data : string) (dataInt16 : list Z) : list call :=
  [ Atob data;
    CreateBuffer (ctx_id ctx) 1 (Z.of_nat (List.length dataInt16)) 24000;
    CreateBufferSource (ctx_id ctx) (S id);
    Connect (S id) (ctx_id ctx);
    Start (played_source ctx id dataInt16) ].

(** Lines 102 to 105 as a function of the payload: the samples, or
    the exception of [atob] or of the [Int16Array] constructor. *)
Definition dataInt16_of (data : string) : Js.completion (list Z) :=
  match Base64.atob data with
  | Js.Normal binary => Int16Array_of_buffer (Uint8Array_from binary)
  | Js.Throw e => Js.Throw e
  end.

(** The test of line 93, negated: the call goes on. *)
Definition passes (isVoiceEnabled : bool) (base64 : Js.value) : bool :=
  isVoiceEnabled && Js.truthy base64.

(** The four ways a call of [playVoice] ends. *)
Inductive playVoice_spec (isVoiceEnabled : bool) (base64 : Js.value)
    (w : World) : Js.promise -> World -> Prop :=
| pv_noop :
    passes isVoiceEnabled base64 = false ->
    playVoice_spec isVoiceEnabled base64 w Js.Fulfilled w
| pv_decode_error (e : Js.error) :
    passes isVoiceEnabled base64 = true ->
    dataInt16_of (Js.to_string base64) = Js.Throw e ->
    playVoice_spec isVoiceEnabled base64 w (Js.Rejected e)
      (with_calls (snd (acquire w)) [Atob (Js.to_string base64)])
| pv_no_frames :
    passes isVoiceEnabled base64 = true ->
    dataInt16_of (Js.to_string base64) = Js.Normal [] ->
    playVoice_spec isVoiceEnabled base64 w (Js.Rejected Js.NotSupportedError)
      (with_calls (snd (acquire w))
         [Atob (Js.to_string base64);
          CreateBuffer (ctx_id (fst (acquire w))) 1 0 24000])
| pv_played (dataInt16 : list Z) :
    passes isVoiceEnabled base64 = true ->
    dataInt16_of (Js.to_string base64) = Js.Normal dataInt16 ->
    dataInt16 <> [] ->
    playVoice_spec isVoiceEnabled base64 w Js.Fulfilled
      {| nextId := S (S (nextId (snd (acquire w))));
         audioContextRef := audioContextRef (snd (acquire w));
         calls := calls (snd (acquire w)) ++
                  playback_calls (fst (acquire w)) (nextId (snd (acquire w)))
                    (Js.to_string base64) dataInt16 |}.

(** Among recorded calls: the source nodes started, the contexts
    constructed, the payloads given to [atob] and the arguments given
    to [createBuffer]. *)
Definition started (cs : list call) : list AudioBufferSourceNode :=
  flat_map (fun c => match c with Start s => [s] | _ => [] end) cs.

Definition contexts_created (cs : list call) : list AudioContext :=
  flat_map (fun c => match c with NewAudioContext x => [x] | _ => [] end) cs.

Definition decoded (cs : list call) : list string :=
  flat_map (fun c => match c with Atob d => [d] | _ => [] end) cs.

Definition buffers_requested (cs : list call) : list (Z * Z * Z) :=
  flat_map (fun c => match c with
                     | CreateBuffer _ nch len rate => [(nch, len, rate)]
                     | _ => []
                     end) cs.

(** The calls recorded between the worlds [w] and [w']. *)
Definition new_calls (w w' : World) : list call :=
  skipn (List.length (calls w)) (calls w').

(** The sextets that [Base64.encode_bytes] writes as digits, and the
    padding it appends. *)
Fixpoint sextets_of (bs : list ascii) : list Z :=
  match bs with
  | x :: y :: z :: r =>
      let w := Z.lor (Z.lor (Z.shiftl (Base64.code x) 16) (Z.shiftl (Base64.code y) 8))
                     (Base64.code z) in
      Z.land (Z.shiftr w 18) 63 :: Z.land (Z.shiftr w 12) 63
        :: Z.land (Z.shiftr w 6) 63 :: Z.land w 63 :: sextets_of r
  | [x; y] =>
      let w := Z.lor (Z.shiftl (Base64.code x) 16) (Z.shiftl (Base64.code y) 8) in
      [Z.land (Z.shiftr w 18) 63; Z.land (Z.shiftr w 12) 63;
       Z.land (Z.shiftr w 6) 63]
  | [x] =>
      let w := Z.shiftl (Base64.code x) 16 in
      [Z.land (Z.shiftr w 18) 63; Z.land (Z.shiftr w 12) 63]
  | [] => []
  end.

Fixpoint padding (bs : list ascii) : list ascii :=
  match bs with
  | _ :: _ :: _ :: r => padding r
  | [_; _] => ["="%char]
  | [_] => ["="%char; "="%char]
  | [] => []
  end.

(** Every digit of the alphabet decodes to its index. *)
Definition digit_ok (v : Z) : bool :=
  match Base64.sextet (Base64.digit v) with
  | Some u => (u =? v) && negb (Base64.is_ascii_whitespace (Base64.digit v))
              && negb (Base64.is_equals (Base64.digit v))
  | None => false
  end.


(** The response has no inline audio data: some link of the chain
    [candidates[0].content.parts[0].inlineData.data] is missing. *)
Definition lacks_audio (response : GenerateContentResponse) : bool :=
  match candidates response with
  | None | Some [] => true
  | Some (candidate :: _) =>
      match content candidate with
      | None => true
      | Some c =>
          match parts c with
          | None | Some [] => true
          | Some (part :: _) =>
              match inlineData part with
              | None => true
              | Some blob =>
                  match data blob with
                  | Js.Undefined | Js.Null => true
                  | Js.Str _ => false
                  end
              end
          end
      end
  end.

(** The identities of the objects that recorded calls made. *)
Definition used_ids (cs : list call) : list ObjId :=
  flat_map (fun c =>
              match c with
              | NewAudioContext x => [ctx_id x]
              | CreateBufferSource _ s => [s]
              | Start src =>
                  src_id src :: match src_buffer src with
                                | Some b => [buf_id b]
                                | None => []
                                end
              | _ => []
              end) cs.

(** What holds of every world a session reaches: the contexts ever
    constructed are the one the ref holds, if any, and every identity
    on record has been allocated. *)
Record consistent (w : World) : Prop := {
  one_context :
    contexts_created (calls w) =
      match audioContextRef w with Some c => [c] | None => [] end;
  ids_allocated :
    forall id, In id (used_ids (calls w)) -> (id < nextId w)%nat
}.

(** How the promise settles, whatever the world. *)
Definition settles (isVoiceEnabled : bool) (base64 : Js.value) : Js.promise :=
  if passes isVoiceEnabled base64 then
    match dataInt16_of (Js.to_string base64) with
    | Js.Throw e => Js.Rejected e
    | Js.Normal [] => Js.Rejected Js.NotSupportedError
    | Js.Normal (_ :: _) => Js.Fulfilled
    end
  else Js.Fulfilled.

End Notions.

(** The encoder of the test vector: each sample as two bytes, low byte
    first, in two's complement.  Not a function of the application. *)
Module Pcm.

Definition int16_bytes (s : Z) : list ascii :=
  [Base64.byte_char s; Base64.byte_char (Z.shiftr s 8)].

Definition encode (samples : list Z) : string :=
  string_of_list_ascii (flat_map int16_bytes samples).

Definition vector : list Z := [0; 16384; -16384; 32767; -32768].

(** 0, 0.5, -0.5, 32767/32768 and -1.0 as binary32 values. *)
Definition expected : list Num.float32 :=
  [ S754_zero false;
    S754_finite false 8388608 (-24);
    S754_finite true 8388608 (-24);
    S754_finite false 16776704 (-24);
    S754_finite true 8388608 (-23) ].

End Pcm.

(** * The component

    The state of the [App] component and its event handlers, beside
    [playVoice].  A handler that awaits a provider is given the outcome
    of each call it makes; events are handled one at a time, so the
    model covers the runs in which no other event is handled between a
    handler's awaits.  Handlers that overlap come further down, in
    [Async]. *)

(** ** String.prototype.trim *)

Module Text.

(** WhiteSpace and LineTerminator among the characters of code at most
    255: TAB, LF, VT, FF, CR, SPACE and NO-BREAK SPACE. *)
Definition is_white_space (c : ascii) : bool :=
  let n := Base64.code c in
  ((9 <=? n) && (n <=? 13)) || (n =? 32) || (n =? 160).

Fixpoint trimStart (s : string) : string :=
  match s with
  | EmptyString => EmptyString
  | String c r => if is_white_space c then trimStart r else s
  end.

(** The string without its trailing white space: a character is kept
    when it is not white space or something is kept after it. *)
Fixpoint trimEnd (s : string) : string :=
  match s with
  | EmptyString => EmptyString
  | String c r =>
      match trimEnd r with
      | EmptyString => if is_white_space c then EmptyString
                       else String c EmptyString
      | kept => String c kept
      end
  end.

Definition trim (s : string) : string := trimEnd (trimStart s).

(** [!s] for a string. *)
Definition is_empty (s : string) : bool :=
  match s with
  | EmptyString => true
  | String _ _ => false
  end.

Definition newline : string := String (ascii_of_nat 10) EmptyString.

End Text.

(** ** The types of types.ts *)

Module App.

Record TestCase : Type := mkTestCase {
  input : string;
  expectedOutput : string
}.

Inductive Difficulty : Type := Easy | Medium | Hard.

Record CodingProblem : Type := mkCodingProblem {
  title : string;
  description : string;
  industryContext : string;
  inputFormat : string;
  outputFormat : string;
  difficulty : Difficulty;
  testCases : list TestCase;
  tags : list string
}.

Record EvaluationResult : Type := mkEvaluationResult {
  isCorrect : bool;
  score : Num.number;
  feedback : string;
  hint : option string;
  mistakes : option (list string);
  optimization : option string;
  explanation : string;
  timeComplexity : string;
  spaceComplexity : string;
  cleanlinessScore : Num.number
}.

(** The counters are numbers that hold integers, far below 2^53, where
    [+] is exact. *)
Record UserStats : Type := mkUserStats {
  xp : Z;
  rank : string;
  solvedCount : Z;
  streak : Z
}.

Inductive AppStatus : Type :=
| IDLE
| GENERATING
| CONTEST_READY
| JUDGING
| RESULT_READY.

(** ** The state of the component *)

Inductive Role : Type := user | sensei.

Record ChatEntry : Type := mkChatEntry {
  role : Role;
  text : string
}.

(** The outcome of an awaited call of a provider function of
    geminiService.ts: the value it resolves with, or its rejection. *)
Inductive outcome (A : Type) : Type :=
| Resolved (a : A)
| Failed.
Arguments Failed {A}.

(** The calls of the provider functions, with their arguments. *)
Inductive request : Type :=
| GenerateProblem
| EvaluateSolution (problem : CodingProblem) (code language : string)
| GenerateSenseiVoice (text : string)
| AskSenseiHint (problem : CodingProblem) (code question : string).

(** What the providers answer during one run of a handler: the
    outcomes of [generateProblem], [evaluateSolution] and
    [askSenseiHint], and the outcome of the request for content that
    [generateSenseiVoice] awaits. *)
Record Providers : Type := mkProviders {
  generateProblem : outcome CodingProblem;
  evaluateSolution : CodingProblem -> string -> string ->
                     outcome EvaluationResult;
  voiceContent : string -> outcome Gemini.GenerateContentResponse;
  askSenseiHint : CodingProblem -> string -> string -> outcome string
}.

(** [generateSenseiVoice(text)] of geminiService.ts, lines 88 to 103:
    the audio data of the response, or the rejection of the request. *)
Definition generateSenseiVoice (P : Providers) (text : string)
    : outcome Js.value :=
  match voiceContent P text with
  | Resolved response => Resolved (Gemini.generateSenseiVoice response)
  | Failed => Failed
  end.

(** The [useState] cells of the component, the world of [playVoice]
    (with the [useRef] cell), and what a test double would record: the
    calls of the providers, the rejections of [playVoice] that nothing
    handles, and the number of errors sent to the console. *)
Record State : Type := mkState {
  status : AppStatus;
  problem : option CodingProblem;
  code : string;
  language : string;
  result : option EvaluationResult;
  isVoiceEnabled : bool;
  chatMessage : string;
  chatHistory : list ChatEntry;
  isAssistantLoading : bool;
  stats : UserStats;
  audio : World;
  requests : list request;
  unhandled : list Js.error;
  consoleErrors : nat
}.

(** The state of a freshly mounted component with nothing saved. *)
Definition mounted : State :=
  {| status := IDLE; problem := None; code := ""; language := "python";
     result := None; isVoiceEnabled := true; chatMessage := "";
     chatHistory := []; isAssistantLoading := false;
     stats := {| xp := 0; rank := "Novice"; solvedCount := 0; streak := 0 |};
     audio := initial; requests := []; unhandled := []; consoleErrors := O |}.

(** *** The setters *)

Definition setStatus (v : AppStatus) (a : State) : State :=
  mkState v (problem a) (code a) (language a) (result a) (isVoiceEnabled a)
    (chatMessage a) (chatHistory a) (isAssistantLoading a) (stats a)
    (audio a) (requests a) (unhandled a) (consoleErrors a).

Definition setProblem (v : option CodingProblem) (a : State) : State :=
  mkState (status a) v (code a) (language a) (result a) (isVoiceEnabled a)
    (chatMessage a) (chatHistory a) (isAssistantLoading a) (stats a)
    (audio a) (requests a) (unhandled a) (consoleErrors a).

Definition setCode (v : string) (a : State) : State :=
  mkState (status a) (problem a) v (language a) (result a) (isVoiceEnabled a)
    (chatMessage a) (chatHistory a) (isAssistantLoading a) (stats a)
    (audio a) (requests a) (unhandled a) (consoleErrors a).

Definition setLanguage (v : string) (a : State) : State :=
  mkState (status a) (problem a) (code a) v (result a) (isVoiceEnabled a)
    (chatMessage a) (chatHistory a) (isAssistantLoading a) (stats a)
    (audio a) (requests a) (unhandled a) (consoleErrors a).

Definition setResult (v : option EvaluationResult) (a : State) : State :=
  mkState (status a) (problem a) (code a) (language a) v (isVoiceEnabled a)
    (chatMessage a) (chatHistory a) (isAssistantLoading a) (stats a)
    (audio a) (requests a) (unhandled a) (consoleErrors a).

(** The setters called with a function apply it to the state at the
    time of the update. *)
Definition setIsVoiceEnabled (f : bool -> bool) (a : State) : State :=
  mkState (status a) (problem a) (code a) (language a) (result a)
    (f (isVoiceEnabled a))
    (chatMessage a) (chatHistory a) (isAssistantLoading a) (stats a)
    (audio a) (requests a) (unhandled a) (consoleErrors a).

Definition setChatMessage (v : string) (a : State) : State :=
  mkState (status a) (problem a) (code a) (language a) (result a)
    (isVoiceEnabled a) v (chatHistory a) (isAssistantLoading a) (stats a)
    (audio a) (requests a) (unhandled a) (consoleErrors a).

Definition setChatHistory (f : list ChatEntry -> list ChatEntry) (a : State)
    : State :=
  mkState (status a) (problem a) (code a) (language a) (result a)
    (isVoiceEnabled a) (chatMessage a) (f (chatHistory a))
    (isAssistantLoading a) (stats a)
    (audio a) (requests a) (unhandled a) (consoleErrors a).

Definition setIsAssistantLoading (v : bool) (a : State) : State :=
  mkState (status a) (problem a) (code a) (language a) (result a)
    (isVoiceEnabled a) (chatMessage a) (chatHistory a) v (stats a)
    (audio a) (requests a) (unhandled a) (consoleErrors a).

Definition setStats (f : UserStats -> UserStats) (a : State) : State :=
  mkState (status a) (problem a) (code a) (language a) (result a)
    (isVoiceEnabled a) (chatMessage a) (chatHistory a) (isAssistantLoading a)
    (f (stats a))
    (audio a) (requests a) (unhandled a) (consoleErrors a).

(** *** The calls out of the component *)

(** A call of a provider function: it is recorded. *)
Definition send (r : request) (a : State) : State :=
  mkState (status a) (problem a) (code a) (language a) (result a)
    (isVoiceEnabled a) (chatMessage a) (chatHistory a) (isAssistantLoading a)
    (stats a) (audio a) (requests a ++ [r]) (unhandled a) (consoleErrors a).

(** [console.error(err)] *)
Definition consoleError (a : State) : State :=
  mkState (status a) (problem a) (code a) (language a) (result a)
    (isVoiceEnabled a) (chatMessage a) (chatHistory a) (isAssistantLoading a)
    (stats a) (audio a) (requests a) (unhandled a) (S (consoleErrors a)).

(** [playVoice(base64)], not awaited: the callback runs with the
    [isVoiceEnabled] of the render, its promise is dropped, and a
    rejection is handled by nothing. *)
Definition callPlayVoice (base64 : Js.value) (a : State) : State :=
  let r := playVoice (isVoiceEnabled a) base64 (audio a) in
  mkState (status a) (problem a) (code a) (language a) (result a)
    (isVoiceEnabled a) (chatMessage a) (chatHistory a) (isAssistantLoading a)
    (stats a) (snd r) (requests a)
    (match fst r with
     | Js.Fulfilled => unhandled a
     | Js.Rejected e => unhandled a ++ [e]
     end)
    (consoleErrors a).

(** ** The handlers *)

(** How the promise of an [async] handler settles. *)
Inductive settled : Type := Done | Raised.

Definition pythonTemplate : string :=
  "# Optimize your logic here" ++ Text.newline ++
  "def solution(data):" ++ Text.newline ++
  "    pass".

Definition javascriptTemplate : string :=
  "// Professional Logic Hub" ++ Text.newline ++
  "function solution(data) {" ++ Text.newline ++
  "    return null;" ++ Text.newline ++
  "}".

Definition greeting : ChatEntry :=
  {| role := sensei;
     text := "Namaste! Main aapka judge hoon. Start coding whenever you are ready!" |}.

(** Lines 123 to 139. *)
Definition startNewContest (P : Providers) (a : State) : settled * State :=
  let a := setStatus GENERATING a in
  let a := send GenerateProblem a in
  match generateProblem P with
  | Resolved newProblem =>
      let a := setProblem (Some newProblem) a in
      let defaultCode :=
        if String.eqb (language a) "python" then pythonTemplate
        else javascriptTemplate in
      let a := setCode defaultCode a in
      let a := setChatHistory (fun _ => [greeting]) a in
      let a := setStatus CONTEST_READY a in
      (Done, setResult None a)
  | Failed =>
      let a := consoleError a in
      (Done, setStatus IDLE a)
  end.

(** The updater of lines 170 to 176. *)
Definition award (prev : UserStats) : UserStats :=
  {| xp := xp prev + 100;
     rank := if xp prev >? 500 then "Architect"
             else if xp prev >? 200 then "Engineer"
             else "Novice";
     solvedCount := solvedCount prev + 1;
     streak := streak prev + 1 |}.

(** Lines 141 to 156.  The hint is the text of the provider's answer,
    taken to be a string as its type says. *)
Definition handleAssistantAsk (P : Providers) (a : State) : settled * State :=
  match problem a with
  | Some problem0 =>
      if Text.is_empty (Text.trim (chatMessage a)) then (Done, a)
      else
        let code0 := code a in
        let msg := chatMessage a in
        let a := setChatMessage "" a in
        let a := setChatHistory
                   (fun prev => prev ++ [{| role := user; text := msg |}]) a in
        let a := setIsAssistantLoading true a in
        let a := send (AskSenseiHint problem0 code0 msg) a in
        match askSenseiHint P problem0 code0 msg with
        | Resolved hint0 =>
            let a := setChatHistory
                       (fun prev => prev ++ [{| role := sensei; text := hint0 |}])
                       a in
            let a := send (GenerateSenseiVoice hint0) a in
            match generateSenseiVoice P hint0 with
            | Resolved voice =>
                let a := callPlayVoice voice a in
                (Done, setIsAssistantLoading false a)
            | Failed => (Raised, setIsAssistantLoading false a)
            end
        | Failed => (Raised, setIsAssistantLoading false a)
        end
  | None => (Done, a)
  end.

(** Lines 158 to 181. *)
Definition submitSolution (P : Providers) (a : State) : settled * State :=
  match problem a with
  | Some problem0 =>
      if Text.is_empty (Text.trim (code a)) then (Done, a)
      else
        let code0 := code a in
        let language0 := language a in
        let a := setStatus JUDGING a in
        let a := send (EvaluateSolution problem0 code0 language0) a in
        match evaluateSolution P problem0 code0 language0 with
        | Resolved evalResult =>
            let a := setResult (Some evalResult) a in
            let a := setStatus RESULT_READY a in
            let a := send (GenerateSenseiVoice (feedback evalResult)) a in
            match generateSenseiVoice P (feedback evalResult) with
            | Resolved feedbackVoice =>
                let a := callPlayVoice feedbackVoice a in
                if isCorrect evalResult
                then (Done, setStats award a)
                else (Done, a)
            | Failed => (Done, setStatus CONTEST_READY a)
            end
        | Failed => (Done, setStatus CONTEST_READY a)
        end
  | None => (Done, a)
  end.

(** Lines 190 to 214: the handlers that await nothing. *)
Definition handleLanguageChange (value : string) (a : State) : State :=
  setLanguage value a.

Definition handleCodeChange (value : string) (a : State) : State :=
  setCode value a.

Definition handleChatMessageChange (value : string) (a : State) : State :=
  setChatMessage value a.

Definition handleChatKeyDown (key : string) (P : Providers) (a : State)
    : settled * State :=
  if String.eqb key "Enter" then handleAssistantAsk P a else (Done, a).

Definition toggleVoice (a : State) : State :=
  setIsVoiceEnabled negb a.

Definition returnToAssistant (a : State) : State :=
  setStatus CONTEST_READY a.

End App.

(** ** The events of the page *)

Module Page.

Import App.

(** What the user can do: the buttons, the two text inputs and the
    language selector, each with the handler the page binds to it and,
    where that handler awaits providers, what they answer. *)
Inductive event : Type :=
| ClickStart (P : Providers)          (* Launch Arena, Reset Session, START SPRINT *)
| ClickSubmit (P : Providers)         (* SUBMIT FOR JUDGING *)
| ClickAsk (P : Providers)            (* the button of the chat input *)
| KeyDown (key : string) (P : Providers)
| ChangeLanguage (value : string)
| ChangeCode (value : string)
| ChangeChatMessage (value : string)
| ClickToggleVoice
| ClickReturn.                        (* Back to Assistant *)

(** The three panes are shown unless the status is IDLE or GENERATING. *)
Definition panes (a : State) : bool :=
  match status a with
  | IDLE | GENERATING => false
  | _ => true
  end.

(** The third pane shows the evaluation when the status is RESULT_READY
    and there is a result, and the assistant otherwise. *)
Definition evaluation_shown (a : State) : bool :=
  match status a, result a with
  | RESULT_READY, Some _ => true
  | _, _ => false
  end.

(** The element that raises the event is on the page and enabled. *)
Definition rendered (a : State) (e : event) : bool :=
  match e with
  | ClickStart _ => true
  | ClickToggleVoice => true
  | ClickSubmit _ =>
      panes a && match status a with JUDGING => false | _ => true end
  | ChangeLanguage value =>
      panes a && (String.eqb value "python" || String.eqb value "javascript")
  | ChangeCode _ => panes a
  | ClickAsk _ | KeyDown _ _ | ChangeChatMessage _ =>
      panes a && negb (evaluation_shown a)
  | ClickReturn => panes a && evaluation_shown a
  end.

(** The state once the handler of the event has run to its end. *)
Definition handle (e : event) (a : State) : State :=
  match e with
  | ClickStart P => snd (startNewContest P a)
  | ClickSubmit P => snd (submitSolution P a)
  | ClickAsk P => snd (handleAssistantAsk P a)
  | KeyDown key P => snd (handleChatKeyDown key P a)
  | ChangeLanguage value => handleLanguageChange value a
  | ChangeCode value => handleCodeChange value a
  | ChangeChatMessage value => handleChatMessageChange value a
  | ClickToggleVoice => toggleVoice a
  | ClickReturn => returnToAssistant a
  end.

(** The states of a component mounted with nothing saved, after any
    number of events, each raised by an element on the page. *)
Inductive reachable : State -> Prop :=
| reach_mounted : reachable mounted
| reach_event (a : State) (e : event) :
    reachable a -> rendered a e = true -> reachable (handle e a).

(** The rank that goes with an amount of XP in a reachable state. *)
Definition rank_at (points : Z) : string :=
  if points >? 600 then "Architect"
  else if points >? 300 then "Engineer"
  else "Novice".

End Page.

(** What holds of the component between two events. *)
Record steady (a : App.State) : Prop := {
  at_rest :
    App.status a = App.IDLE \/ App.status a = App.CONTEST_READY
    \/ App.status a = App.RESULT_READY;
  problem_loaded : App.status a <> App.IDLE -> App.problem a <> None;
  result_ready : App.status a = App.RESULT_READY -> App.result a <> None;
  not_loading : App.isAssistantLoading a = false;
  greeted :
    App.problem a <> None ->
    exists rest, App.chatHistory a = App.greeting :: rest;
  language_known :
    App.language a = "python"%string \/ App.language a = "javascript"%string;
  stats_in_step :
    App.xp (App.stats a) = 100 * App.solvedCount (App.stats a)
    /\ App.streak (App.stats a) = App.solvedCount (App.stats a)
    /\ 0 <= App.solvedCount (App.stats a)
    /\ App.rank (App.stats a) = Page.rank_at (App.xp (App.stats a));
  one_audio_context : consistent (App.audio a)
}.

(** Blank text: nothing but white space. *)
Definition blank (s : string) : bool :=
  forallb Text.is_white_space (list_ascii_of_string s).

(** The state after the events of a list, in order. *)
Definition handle_all (es : list Page.event) (a : App.State) : App.State :=
  fold_left (fun a e => Page.handle e a) es a.

(** The event is not the click on the voice button. *)
Definition not_toggle (e : Page.event) : bool :=
  match e with
  | Page.ClickToggleVoice => false
  | _ => true
  end.

(** Providers for examples: a judge that finds every solution correct,
    and a voice provider that answers with the two samples of
    ["QUJDRA=="]. *)
Definition sample_problem : App.CodingProblem :=
  {| App.title := "Two Sum"; App.description := "Find two numbers.";
     App.industryContext := "Ledgers"; App.inputFormat := "n, then n numbers";
     App.outputFormat := "two indices"; App.difficulty := App.Medium;
     App.testCases := [{| App.input := "2 1 2"; App.expectedOutput := "0 1" |}];
     App.tags := ["array"%string] |}.

Definition sample_result : App.EvaluationResult :=
  {| App.isCorrect := true; App.score := Num.of_Z 90;
     App.feedback := "Shabaash!"; App.hint := None; App.mistakes := None;
     App.optimization := None; App.explanation := "Linear scan.";
     App.timeComplexity := "O(n)"; App.spaceComplexity := "O(n)";
     App.cleanlinessScore := Num.of_Z 80 |}.

Definition sample_voice : Gemini.GenerateContentResponse :=
  Gemini.mkResponse (Some [Gemini.mkCandidate (Some (Gemini.mkContent (Some
    [Gemini.mkPart (Some (Gemini.mkBlob (Js.Str "QUJDRA==")))])))]).

Definition answering : App.Providers :=
  {| App.generateProblem := App.Resolved sample_problem;
     App.evaluateSolution := fun _ _ _ => App.Resolved sample_result;
     App.voiceContent := fun _ => App.Resolved sample_voice;
     App.askSenseiHint := fun _ _ _ => App.Resolved "Socho: hash map."%string |}.

(** Providers of which the voice fails. *)
Definition voiceless : App.Providers :=
  {| App.generateProblem := App.Resolved sample_problem;
     App.evaluateSolution := fun _ _ _ => App.Resolved sample_result;
     App.voiceContent := fun _ => App.Failed;
     App.askSenseiHint := fun _ _ _ => App.Resolved "Socho: hash map."%string |}.

(** The call of [playVoice] gets past the guard and is fulfilled: it
    plays. *)
Definition sounds (c : bool * Js.value) : bool :=
  passes (fst c) (snd c)
  && match settles (fst c) (snd c) with
     | Js.Fulfilled => true
     | Js.Rejected _ => false
     end.

(** A component in which a contest has just been started, and the same
    with a question typed. *)
Definition contest : App.State := snd (App.startNewContest answering App.mounted).


(** * The window

    Line 96 takes the constructor of the context from [window]: a page
    has [AudioContext], only the prefixed [webkitAudioContext], or
    neither, and the constructor may throw.  [Window.playVoice] is
    [playVoice] on such a page; [playVoice] above is the function on a
    page whose constructor succeeds. *)

Module Window.

(** What [new C({ sampleRate })] does for a constructor [C] of the
    page: it returns a context, or throws. *)
Inductive constructor : Type :=
| Constructs
| Throws (e : Js.error).

(** [window.AudioContext] and [window.webkitAudioContext]; [None] is
    [undefined]. *)
Record t : Type := mk {
  window_AudioContext : option constructor;
  window_webkitAudioContext : option constructor
}.

(** [window.AudioContext || window.webkitAudioContext]: a function is
    truthy, [undefined] is not. *)
Definition audioContextClass (win : t) : option constructor :=
  match window_AudioContext win with
  | Some C => Some C
  | None => window_webkitAudioContext win
  end.

(** [new (C)({ sampleRate: rate })]: [new] applied to [undefined] throws
    a TypeError; nothing is constructed when the call throws. *)
Definition new_AudioContext (win : t) (rate : Z) : M AudioContext :=
  match audioContextClass win with
  | Some Constructs => new_AudioContext rate
  | Some (Throws e) => throw e
  | None => throw Js.TypeError
  end.

(** Lines 92 to 121, as in [playVoice] above but for line 96. *)
Definition playVoice (win : t) (isVoiceEnabled : bool) (base64 : Js.value)
    : World -> Js.promise * World :=
  async (
    (* 93 *)
    if negb isVoiceEnabled || negb (Js.truthy base64) then ret tt
    else
      (* 95-97: the assignment to the ref is not reached when the
         constructor throws *)
      current <- read_audioContextRef ;;
      match current with
      | None =>
          c <- new_AudioContext win 24000 ;;
          write_audioContextRef (Some c)
      | Some _ => ret tt
      end ;;
      (* 98 *)
      current <- read_audioContextRef ;;
      ctx <- match current with
             | Some c => ret c
             | None => throw Js.TypeError
             end ;;
      (* 102-103 *)
      binary <- atob (Js.to_string base64) ;;
      let bytes := TypedArray.Uint8Array_from binary in
      (* 105-107 *)
      dataInt16 <- lift (TypedArray.Int16Array_of_buffer bytes) ;;
      buffer <- createBuffer ctx 1 (Z.of_nat (List.length dataInt16)) 24000 ;;
      (* 111-115 *)
      let normalizedData := normalizedData_of dataInt16 in
      buffer <- setChannelData0 buffer normalizedData ;;
      (* 117-120 *)
      source <- createBufferSource ctx ;;
      let source := {| src_id := src_id source; src_ctx := src_ctx source;
                       src_buffer := Some buffer;
                       src_output := src_output source |} in
      source <- connect source ctx ;;
      start source).

(** A context is at hand for a call in the world [w]: the ref holds
    one, or the page has a constructor that succeeds. *)
Definition available (win : t) (w : World) : bool :=
  match audioContextRef w, audioContextClass win with
  | Some _, _ => true
  | None, Some Constructs => true
  | None, _ => false
  end.

(** A page with neither constructor. *)
Definition bare : t :=
  {| window_AudioContext := None; window_webkitAudioContext := None |}.

End Window.



(** * Handlers that overlap

    Above, a handler runs to its end before the next event is handled.
    Here a handler stops at each [await] and goes on when the promise
    it awaits settles, and other events are handled meanwhile.  A
    handler works with the values of the render it was called in
    ([problem], [code], [language], [chatMessage] and, through
    [playVoice], [isVoiceEnabled]); its setters act on the state of the
    moment they are called. *)

Module Async.

Import App.

(** A handler that has returned, or one stopped at an [await]: the
    call it awaits and what it does, to the state of that moment, once
    the promise has settled. *)
Local Unset Elimination Schemes.
Inductive task : Type :=
| Returned (s : settled)
| AwaitProblem (k : outcome CodingProblem -> State -> task * State)
| AwaitEvaluation (problem : CodingProblem) (code language : string)
    (k : outcome EvaluationResult -> State -> task * State)
| AwaitVoice (text : string) (k : outcome Js.value -> State -> task * State)
| AwaitHint (problem : CodingProblem) (code question : string)
    (k : outcome string -> State -> task * State).
Local Set Elimination Schemes.

(** [playVoice(base64)], not awaited, for the callback of a render in
    which [isVoiceEnabled] was [isVoiceEnabled0]. *)
Definition callPlayVoice (isVoiceEnabled0 : bool) (base64 : Js.value)
    (a : State) : State :=
  let r := playVoice isVoiceEnabled0 base64 (audio a) in
  mkState (status a) (problem a) (code a) (language a) (result a)
    (isVoiceEnabled a) (chatMessage a) (chatHistory a) (isAssistantLoading a)
    (stats a) (snd r) (requests a)
    (match fst r with
     | Js.Fulfilled => unhandled a
     | Js.Rejected e => unhandled a ++ [e]
     end)
    (consoleErrors a).

(** Lines 123 to 139. *)
Definition startNewContest (a : State) : task * State :=
  let language0 := language a in
  let a := setStatus GENERATING a in
  let a := send GenerateProblem a in
  (AwaitProblem (fun generated a =>
     match generated with
     | Resolved newProblem =>
         let a := setProblem (Some newProblem) a in
         let defaultCode :=
           if String.eqb language0 "python" then pythonTemplate
           else javascriptTemplate in
         let a := setCode defaultCode a in
         let a := setChatHistory (fun _ => [greeting]) a in
         let a := setStatus CONTEST_READY a in
         (Returned Done, setResult None a)
     | Failed =>
         let a := consoleError a in
         (Returned Done, setStatus IDLE a)
     end), a).

(** Lines 141 to 156. *)
Definition handleAssistantAsk (a : State) : task * State :=
  match problem a with
  | Some problem0 =>
      if Text.is_empty (Text.trim (chatMessage a)) then (Returned Done, a)
      else
        let code0 := code a in
        let msg := chatMessage a in
        let isVoiceEnabled0 := isVoiceEnabled a in
        let a := setChatMessage "" a in
        let a := setChatHistory
                   (fun prev => prev ++ [{| role := user; text := msg |}]) a in
        let a := setIsAssistantLoading true a in
        let a := send (AskSenseiHint problem0 code0 msg) a in
        (AwaitHint problem0 code0 msg (fun hinted a =>
           match hinted with
           | Resolved hint0 =>
               let a := setChatHistory
                          (fun prev =>
                             prev ++ [{| role := sensei; text := hint0 |}]) a in
               let a := send (GenerateSenseiVoice hint0) a in
               (AwaitVoice hint0 (fun voiced a =>
                  match voiced with
                  | Resolved voice =>
                      let a := callPlayVoice isVoiceEnabled0 voice a in
                      (Returned Done, setIsAssistantLoading false a)
                  | Failed => (Returned Raised, setIsAssistantLoading false a)
                  end), a)
           | Failed => (Returned Raised, setIsAssistantLoading false a)
           end), a)
  | None => (Returned Done, a)
  end.

(** Lines 158 to 181. *)
Definition submitSolution (a : State) : task * State :=
  match problem a with
  | Some problem0 =>
      if Text.is_empty (Text.trim (code a)) then (Returned Done, a)
      else
        let code0 := code a in
        let language0 := language a in
        let isVoiceEnabled0 := isVoiceEnabled a in
        let a := setStatus JUDGING a in
        let a := send (EvaluateSolution problem0 code0 language0) a in
        (AwaitEvaluation problem0 code0 language0 (fun judged a =>
           match judged with
           | Resolved evalResult =>
               let a := setResult (Some evalResult) a in
               let a := setStatus RESULT_READY a in
               let a := send (GenerateSenseiVoice (feedback evalResult)) a in
               (AwaitVoice (feedback evalResult) (fun voiced a =>
                  match voiced with
                  | Resolved feedbackVoice =>
                      let a := callPlayVoice isVoiceEnabled0 feedbackVoice a in
                      if isCorrect evalResult
                      then (Returned Done, setStats award a)
                      else (Returned Done, a)
                  | Failed => (Returned Done, setStatus CONTEST_READY a)
                  end), a)
           | Failed => (Returned Done, setStatus CONTEST_READY a)
           end), a)
  | None => (Returned Done, a)
  end.

(** Lines 202 to 206. *)
Definition handleChatKeyDown (key : string) (a : State) : task * State :=
  if String.eqb key "Enter" then handleAssistantAsk a else (Returned Done, a).

(** The component and the handlers it has called, oldest first; one
    that has returned stays in the list. *)
Record page : Type := mkPage {
  state : State;
  pending : list task
}.

(** What happens: the user acts on an element of the page, or the
    promise that the handler at some index awaits settles. *)
Inductive event : Type :=
| ClickStart
| ClickSubmit
| ClickAsk
| KeyDown (key : string)
| ChangeLanguage (value : string)
| ChangeCode (value : string)
| ChangeChatMessage (value : string)
| ClickToggleVoice
| ClickReturn
| SettleProblem (i : nat) (generated : outcome CodingProblem)
| SettleEvaluation (i : nat) (judged : outcome EvaluationResult)
| SettleVoice (i : nat) (voiced : outcome Js.value)
| SettleHint (i : nat) (hinted : outcome string).

(** A handler is called: it runs to its first [await]. *)
Definition call (handler : State -> task * State) (pg : page) : page :=
  let r := handler (state pg) in
  {| state := snd r; pending := pending pg ++ [fst r] |}.

(** A handler that awaits nothing. *)
Definition apply (handler : State -> State) (pg : page) : page :=
  {| state := handler (state pg); pending := pending pg |}.

(** The handler at index [i] goes on, when it awaits what has
    settled. *)
Definition resume (i : nat) (go : task -> option (task * State)) (pg : page)
    : page :=
  match nth_error (pending pg) i with
  | Some t =>
      match go t with
      | Some r =>
          {| state := snd r;
             pending := firstn i (pending pg) ++ fst r
                          :: skipn (S i) (pending pg) |}
      | None => pg
      end
  | None => pg
  end.

Definition step (e : event) (pg : page) : page :=
  match e with
  | ClickStart => call startNewContest pg
  | ClickSubmit => call submitSolution pg
  | ClickAsk => call handleAssistantAsk pg
  | KeyDown key => call (handleChatKeyDown key) pg
  | ChangeLanguage value => apply (handleLanguageChange value) pg
  | ChangeCode value => apply (handleCodeChange value) pg
  | ChangeChatMessage value => apply (handleChatMessageChange value) pg
  | ClickToggleVoice => apply toggleVoice pg
  | ClickReturn => apply returnToAssistant pg
  | SettleProblem i generated =>
      resume i (fun t => match t with
                         | AwaitProblem k => Some (k generated (state pg))
                         | _ => None
                         end) pg
  | SettleEvaluation i judged =>
      resume i (fun t => match t with
                         | AwaitEvaluation _ _ _ k => Some (k judged (state pg))
                         | _ => None
                         end) pg
  | SettleVoice i voiced =>
      resume i (fun t => match t with
                         | AwaitVoice _ k => Some (k voiced (state pg))
                         | _ => None
                         end) pg
  | SettleHint i hinted =>
      resume i (fun t => match t with
                         | AwaitHint _ _ _ k => Some (k hinted (state pg))
                         | _ => None
                         end) pg
  end.

Definition run (es : list event) (pg : page) : page :=
  fold_left (fun pg e => step e pg) es pg.

(** A component with no handler under way. *)
Definition idle (a : State) : page := {| state := a; pending := [] |}.






End Async.

(** A submission during which the voice button is clicked: the judge
    answers with [r] and the voice provider with the payload [v]. *)
Definition muted_meanwhile (r : App.EvaluationResult) (v : Js.value)
    : list Async.event :=
  [Async.ClickSubmit; Async.ClickToggleVoice;
   Async.SettleEvaluation 0 (App.Resolved r);
   Async.SettleVoice 0 (App.Resolved v)].

(** * Properties *)

Local Close Scope js_scope.

(** ** Tools *)

Section Tools.

(** A test that holds of [n] consecutive integers from [z] on holds of
    each of them. *)
Lemma all_from_spec (f : Z -> bool) :
  forall (n : nat) (z : Z),
    all_from n f z = true ->
    forall s, z <= s < z + Z.of_nat n -> f s = true.
Proof.
  induction n as [|n IH]; intros z Hall s Hs; [lia|].
  simpl in Hall. apply andb_true_iff in Hall as [Hz Hrest].
  destruct (Z.eq_dec s z) as [->|Hne]; [assumption|].
  apply (IH (z + 1) Hrest). lia.
Qed.

(** Induction over a list three elements at a time. *)
Lemma list_triple_ind {A : Type} (P : list A -> Prop) :
  P [] -> (forall x, P [x]) -> (forall x y, P [x; y]) ->
  (forall x y z l, P l -> P (x :: y :: z :: l)) ->
  forall l, P l.
Proof.
  intros H0 H1 H2 H3 l.
  assert (H : P l /\ (forall x, P (x :: l)) /\ (forall x y, P (x :: y :: l))).
  { induction l as [|a l (IH0 & IH1 & IH2)]; repeat split; auto. }
  exact (proj1 H).
Qed.

End Tools.

(** ** Normalization *)

Section Normalization.

Import TypedArray.

Lemma store_app_head {A : Type} (done : list A) (x v : A) (rest : list A) :
  store (done ++ x :: rest) (List.length done) v = done ++ v :: rest.
Proof.
  induction done as [|d done IH]; simpl; [reflexivity|].
  now rewrite IH.
Qed.

Lemma element_app_head (pre : list Z) (s : Z) (post : list Z) :
  element (pre ++ s :: post) (List.length pre) = Num.of_Z s.
Proof.
  unfold element.
  rewrite nth_error_app2 by lia.
  now rewrite Nat.sub_diag.
Qed.

(** The loop invariant: the elements before [i] hold the normalized
    samples, the others are still to be written. *)
Lemma normalize_loop_invariant (post : list Z) :
  forall (fuel : nat) (pre : list Z) (rest : list Num.float32),
    (List.length post <= fuel)%nat ->
    List.length rest = List.length post ->
    normalize_loop fuel (pre ++ post) (map normalize pre ++ rest)
                   (List.length pre)
    = map normalize (pre ++ post).
Proof.
  induction post as [|s post IH]; intros fuel pre rest Hfuel Hrest.
  - destruct rest; [|discriminate].
    rewrite !app_nil_r.
    destruct fuel; simpl; [reflexivity|].
    now rewrite Nat.ltb_irrefl.
  - destruct rest as [|r rest]; [discriminate|].
    destruct fuel as [|fuel]; [simpl in Hfuel; lia|].
    simpl normalize_loop.
    replace (List.length pre <? List.length (pre ++ s :: post))%nat with true
      by (symmetry; apply Nat.ltb_lt; rewrite length_app; simpl; lia).
    unfold normalize_step.
    rewrite element_app_head.
    rewrite <- (length_map normalize pre) at 1.
    rewrite store_app_head.
    fold (normalize s).
    replace (pre ++ s :: post) with ((pre ++ [s]) ++ post)
      by (now rewrite <- app_assoc).
    replace (map normalize pre ++ normalize s :: rest)
      with (map normalize (pre ++ [s]) ++ rest)
      by (rewrite map_app, <- app_assoc; reflexivity).
    replace (S (List.length pre)) with (List.length (pre ++ [s]))
      by (rewrite length_app; simpl; lia).
    apply IH; simpl in *; lia.
Qed.

(** The loop of [playVoice] computes the pointwise image of the
    samples. *)
Lemma normalizedData_of_map (dataInt16 : list Z) :
  normalizedData_of dataInt16 = map normalize dataInt16.
Proof.
  unfold normalizedData_of, Float32Array_new.
  apply normalize_loop_invariant with (pre := @nil Z).
  - lia.
  - apply repeat_length.
Qed.

(** The loop leaves by its own test: more iterations allowed change
    nothing. *)
Lemma normalize_loop_enough (fuel : nat) (dataInt16 : list Z) :
  (List.length dataInt16 <= fuel)%nat ->
  normalize_loop fuel dataInt16 (Float32Array_new (List.length dataInt16)) 0
  = normalizedData_of dataInt16.
Proof.
  intros Hfuel. rewrite normalizedData_of_map.
  unfold Float32Array_new.
  apply normalize_loop_invariant with (pre := @nil Z);
    [exact Hfuel | apply repeat_length].
Qed.

Lemma normalizedData_of_length (dataInt16 : list Z) :
  List.length (normalizedData_of dataInt16) = List.length dataInt16.
Proof. rewrite normalizedData_of_map. apply length_map. Qed.

(** *** The exact value of a normalized sample *)

Lemma exact_at_value (s : Z) :
  exact_at s = true -> Num.value (normalize s) = Some (Qred (s # 32768)).
Proof.
  unfold exact_at, Num.value.
  destruct (normalize s) as [sg| | |sg m e]; try discriminate.
  - intros H. apply Z.eqb_eq in H. subst s. reflexivity.
  - destruct e as [|p|p]; try discriminate.
    intros H. apply Z.eqb_eq in H.
    f_equal. apply Qred_complete.
    unfold Qeq; simpl. rewrite H. reflexivity.
Qed.

Lemma exact_on_int16 : all_from (Z.to_nat 65536) exact_at (-32768) = true.
Proof. vm_compute. reflexivity. Qed.

Lemma normalize_value (s : Z) :
  -32768 <= s <= 32767 ->
  Num.value (normalize s) = Some (Qred (s # 32768)).
Proof.
  intros Hs. apply exact_at_value.
  apply (@all_from_spec exact_at (Z.to_nat 65536) (-32768) exact_on_int16).
  rewrite Z2Nat.id; lia.
Qed.

End Normalization.

(** C2. For every signed 16-bit sample [s], [normalize s] is the float
    whose value is exactly [s / 32768]; that value lies in [-1, 1), so
    the result is never [+1.0]; [normalize (-32768)] is [-1.0] and
    [normalize 32767] is [32767/32768], about 0.999969; and the
    normalized buffer that the loop of [playVoice] fills has the length
    of the PCM buffer and holds [normalize] of its samples in the same
    order. *)
Theorem normalize_exact_in_range (s : Z) (dataInt16 : list Z)
    (Hs : -32768 <= s <= 32767) :
  Num.value (normalize s) = Some (Qred (s # 32768))
  /\ (-1 <= s # 32768)%Q /\ (s # 32768 < 1)%Q
  /\ normalize s <> Num.fround (Num.of_Z 1)
  /\ normalize (-32768) = Num.fround (Num.of_Z (-1))
  /\ Num.value (normalize (-32768)) = Some (-1 # 1)
  /\ Num.value (normalize 32767) = Some (32767 # 32768)
  /\ (999969 # 1000000 <= 32767 # 32768)%Q /\ (32767 # 32768 < 99997 # 100000)%Q
  /\ List.length (normalizedData_of dataInt16) = List.length dataInt16
  /\ (forall i x, nth_error dataInt16 i = Some x ->
        nth_error (normalizedData_of dataInt16) i = Some (normalize x)).
Proof.
  pose proof (normalize_value Hs) as Hv.
  assert (Hlt : (s # 32768 < 1)%Q) by (unfold Qlt; simpl; lia).
  split; [exact Hv|].
  split; [unfold Qle; simpl; lia|].
  split; [exact Hlt|].
  split.
  { intros Hone. rewrite Hone in Hv.
    assert (H1 : Num.value (Num.fround (Num.of_Z 1)) = Some (1 # 1))
      by (vm_compute; reflexivity).
    rewrite H1 in Hv.
    assert (Hq : Qred (s # 32768) = 1 # 1) by congruence.
    pose proof (Qred_correct (s # 32768)) as Hc.
    rewrite Hq in Hc. unfold Qeq in Hc. simpl in Hc. lia. }
  split; [vm_compute; reflexivity|].
  split; [vm_compute; reflexivity|].
  split; [vm_compute; reflexivity|].
  split; [unfold Qle; simpl; lia|].
  split; [unfold Qlt; simpl; lia|].
  split; [apply normalizedData_of_length|].
  intros i x Hi. rewrite normalizedData_of_map.
  now apply map_nth_error.
Qed.

(** The theorem at the sample 16384 and the buffer [[16384; -1]]. *)
Lemma normalize_exact_in_range_witness :
  Num.value (normalize 16384) = Some (1 # 2)
  /\ List.length (normalizedData_of [16384; -1]) = 2%nat.
Proof.
  assert (H : -32768 <= 16384 <= 32767) by lia.
  destruct (@normalize_exact_in_range 16384 [16384; -1] H)
    as (Hv & _ & _ & _ & _ & _ & _ & _ & _ & Hlen & _).
  split; [exact Hv | exact Hlen].
Defined.

(** ** Typed arrays *)

Section TypedArrays.

Import TypedArray.

(** Induction over a list two elements at a time. *)
Lemma list_pair_ind {A : Type} (P : list A -> Prop) :
  P [] -> (forall x, P [x]) ->
  (forall x y l, P l -> P (x :: y :: l)) ->
  forall l, P l.
Proof.
  intros Hnil Hone Hstep l.
  assert (H : P l /\ forall x, P (x :: l)).
  { induction l as [|y l [IHl IHx]]; split; auto. }
  exact (proj1 H).
Qed.

Lemma int16_elements_length (buffer : list Z) :
  List.length (int16_elements buffer) = (List.length buffer / 2)%nat.
Proof.
  induction buffer as [|x|x y l IH] using list_pair_ind; try reflexivity.
  cbn [int16_elements List.length]. rewrite IH.
  change (S (S (List.length l))) with (1 * 2 + List.length l)%nat.
  now rewrite Nat.div_add_l.
Qed.

Lemma Uint8Array_from_length (binary : string) :
  List.length (Uint8Array_from binary) = String.length binary.
Proof.
  unfold Uint8Array_from. rewrite length_map.
  induction binary as [|c r IH]; simpl; congruence.
Qed.

Lemma Int16Array_of_even (buffer : list Z) :
  Nat.even (List.length buffer) = true ->
  Int16Array_of_buffer buffer = Js.Normal (int16_elements buffer).
Proof.
  intros He. unfold Int16Array_of_buffer.
  apply Nat.even_spec in He. destruct He as [k Hk].
  rewrite Hk, Nat2Z.inj_mul, Z.mul_comm, Z_mod_mult. reflexivity.
Qed.

Lemma Int16Array_of_odd (buffer : list Z) :
  Nat.odd (List.length buffer) = true ->
  Int16Array_of_buffer buffer = Js.Throw Js.RangeError.
Proof.
  intros Ho. unfold Int16Array_of_buffer.
  apply Nat.odd_spec in Ho. destruct Ho as [k Hk].
  rewrite Hk, Nat2Z.inj_add, Nat2Z.inj_mul.
  rewrite Z.add_comm, Z.mul_comm, Z_mod_plus_full. reflexivity.
Qed.

Lemma set_same_length {A : Type} (target source : list A) :
  List.length source = List.length target ->
  set target source = Js.Normal source.
Proof.
  intros Hlen. unfold set.
  rewrite Hlen, Nat.leb_refl, skipn_all, app_nil_r. reflexivity.
Qed.

End TypedArrays.

(** ** Base64: [atob] undoes [btoa] *)

Section Bits.

(** [lor] of a shifted number with a number below the shift is a sum. *)
Lemma lor_shiftl_add (a b n : Z) :
  0 <= n -> 0 <= b < 2 ^ n -> Z.lor (Z.shiftl a n) b = a * 2 ^ n + b.
Proof.
  intros Hn Hb.
  assert (Hdisj : Z.land (Z.shiftl a n) b = 0).
  { apply Z.bits_inj'. intros i Hi.
    rewrite Z.land_spec, Z.bits_0.
    destruct (Z.lt_ge_cases i n) as [Hlt|Hge].
    - now rewrite Z.shiftl_spec_low.
    - destruct (Z.eq_dec b 0) as [->|Hb0];
        [now rewrite Z.bits_0, andb_false_r|].
      rewrite (Z.bits_above_log2 b i), andb_false_r; [reflexivity|lia|].
      apply Z.log2_lt_pow2; [lia|].
      apply Z.lt_le_trans with (2 ^ n); [lia|].
      apply Z.pow_le_mono_r; lia. }
  rewrite <- Z.lxor_lor by exact Hdisj.
  rewrite <- Z.add_nocarry_lxor by exact Hdisj.
  now rewrite Z.shiftl_mul_pow2.
Qed.

Lemma land_63 (a : Z) : Z.land a 63 = a mod 64.
Proof. change 63 with (Z.ones 6). now rewrite Z.land_ones. Qed.

Lemma land_255 (a : Z) : Z.land a 255 = a mod 256.
Proof. change 255 with (Z.ones 8). now rewrite Z.land_ones. Qed.

Lemma shiftr_div (a n : Z) : 0 <= n -> Z.shiftr a n = a / 2 ^ n.
Proof. intros. now apply Z.shiftr_div_pow2. Qed.

(** [lor] of two numbers with no bit in common is a sum. *)
Lemma lor_add (hi lo n : Z) :
  0 <= n -> hi mod 2 ^ n = 0 -> 0 <= lo < 2 ^ n -> Z.lor hi lo = hi + lo.
Proof.
  intros Hn Hhi Hlo.
  assert (Hpos : 0 < 2 ^ n) by (apply Z.pow_pos_nonneg; lia).
  pose proof (Z.div_mod hi (2 ^ n) ltac:(lia)) as Hd.
  rewrite Hhi, Z.add_0_r, Z.mul_comm in Hd.
  rewrite Hd at 1. rewrite <- Z.shiftl_mul_pow2 by lia.
  rewrite lor_shiftl_add by lia. lia.
Qed.

End Bits.

(** Side conditions on quotients and remainders by constants. *)
Ltac arith := try lia; cbn; Z.div_mod_to_equations; lia.

(** Three bytes written as four sextets and read back; then two bytes
    as three sextets, and one byte as two. *)
Lemma three_bytes (X Y Z0 : Z) :
  0 <= X < 256 -> 0 <= Y < 256 -> 0 <= Z0 < 256 ->
  let w := Z.lor (Z.lor (Z.shiftl X 16) (Z.shiftl Y 8)) Z0 in
  let a := Z.land (Z.shiftr w 18) 63 in
  let b := Z.land (Z.shiftr w 12) 63 in
  let c := Z.land (Z.shiftr w 6) 63 in
  let d := Z.land w 63 in
  let w' := Z.lor (Z.lor (Z.shiftl a 18) (Z.shiftl b 12))
                  (Z.lor (Z.shiftl c 6) d) in
  Z.land (Z.shiftr w' 16) 255 = X
  /\ Z.land (Z.shiftr w' 8) 255 = Y
  /\ Z.land w' 255 = Z0.
Proof.
  intros HX HY HZ. cbv zeta.
  rewrite !land_63, !land_255, !shiftr_div, !Z.shiftl_mul_pow2 by lia.
  change (2 ^ 16) with 65536. change (2 ^ 8) with 256.
  change (2 ^ 18) with 262144. change (2 ^ 12) with 4096.
  change (2 ^ 6) with 64.
  rewrite (@lor_add (X * 65536) (Y * 256) 16) by arith.
  rewrite (@lor_add (X * 65536 + Y * 256) Z0 8) by arith.
  set (w := X * 65536 + Y * 256 + Z0).
  assert (Hw : 0 <= w < 16777216) by (subst w; lia).
  set (a := (w / 262144) mod 64). set (b := (w / 4096) mod 64).
  set (c := (w / 64) mod 64). set (d := w mod 64).
  assert (Ha : 0 <= a < 64) by (subst a; apply Z.mod_pos_bound; lia).
  assert (Hb : 0 <= b < 64) by (subst b; apply Z.mod_pos_bound; lia).
  assert (Hc : 0 <= c < 64) by (subst c; apply Z.mod_pos_bound; lia).
  assert (Hd : 0 <= d < 64) by (subst d; apply Z.mod_pos_bound; lia).
  rewrite (@lor_add (a * 262144) (b * 4096) 18) by arith.
  rewrite (@lor_add (c * 64) d 6) by arith.
  rewrite (@lor_add (a * 262144 + b * 4096) (c * 64 + d) 12) by arith.
  assert (Hsame : a * 262144 + b * 4096 + (c * 64 + d) = w)
    by (subst a b c d; Z.div_mod_to_equations; lia).
  rewrite Hsame. subst w.
  repeat split; Z.div_mod_to_equations; lia.
Qed.

Section RoundTrip.

Import Base64.

(** The decoder on small inputs: whitespace is skipped and padding may
    be left out, but it may not be misplaced. *)
Example atob_padded : Base64.atob "QUJDRA==" = Js.Normal "ABCD"%string.
Proof. reflexivity. Qed.

Example atob_unpadded : Base64.atob "QUJDRA" = Js.Normal "ABCD"%string.
Proof. reflexivity. Qed.

Example atob_spaced : Base64.atob " QUJD RA = = " = Js.Normal "ABCD"%string.
Proof. reflexivity. Qed.

Example atob_half_padded :
  Base64.atob "QUJDRA=" = Js.Throw Js.InvalidCharacterError.
Proof. reflexivity. Qed.

Example atob_one_digit : Base64.atob "Q" = Js.Throw Js.InvalidCharacterError.
Proof. reflexivity. Qed.

Example atob_bang : Base64.atob "QUJD!" = Js.Throw Js.InvalidCharacterError.
Proof. reflexivity. Qed.

Lemma digit_land (v : Z) : digit (Z.land v 63) = digit v.
Proof. unfold digit. now rewrite <- Z.land_assoc, Z.land_diag. Qed.

Lemma encode_bytes_split (bs : list ascii) :
  encode_bytes bs = map digit (sextets_of bs) ++ padding bs.
Proof.
  induction bs as [|x|x y|x y z r IH] using list_triple_ind.
  - reflexivity.
  - cbn [encode_bytes sextets_of padding map app].
    now rewrite !digit_land.
  - cbn [encode_bytes sextets_of padding map app].
    now rewrite !digit_land.
  - cbn [encode_bytes sextets_of padding map app].
    now rewrite !digit_land, IH.
Qed.

Lemma code_bound (c : ascii) : 0 <= code c < 256.
Proof.
  unfold code. pose proof (N_ascii_bounded c). lia.
Qed.

Lemma byte_char_code (c : ascii) : byte_char (code c) = c.
Proof.
  unfold byte_char, code. rewrite land_255, Z.mod_small.
  - now rewrite N2Z.id, ascii_N_embedding.
  - apply code_bound.
Qed.

Lemma land_63_bound (v : Z) : 0 <= Z.land v 63 < 64.
Proof. rewrite land_63. apply Z.mod_pos_bound. lia. Qed.

Lemma sextets_of_bound (bs : list ascii) :
  Forall (fun v => 0 <= v < 64) (sextets_of bs).
Proof.
  induction bs as [|x|x y|x y z r IH] using list_triple_ind;
    cbn [sextets_of]; repeat constructor; try apply land_63_bound; assumption.
Qed.

Lemma digit_ok_all : all_from 64 digit_ok 0 = true.
Proof. vm_compute. reflexivity. Qed.

Lemma digit_spec (v : Z) :
  0 <= v < 64 ->
  sextet (digit v) = Some v
  /\ is_ascii_whitespace (digit v) = false
  /\ is_equals (digit v) = false.
Proof.
  intros Hv.
  pose proof (@all_from_spec digit_ok 64 0 digit_ok_all v ltac:(simpl; lia)) as H.
  unfold digit_ok in H.
  destruct (sextet (digit v)) as [u|]; [|discriminate].
  apply andb_true_iff in H as [H Heq]. apply andb_true_iff in H as [Hu Hws].
  apply Z.eqb_eq in Hu. subst u.
  repeat split; [now apply negb_true_iff in Hws | now apply negb_true_iff in Heq].
Qed.

Lemma sextets_digits (vs : list Z) :
  Forall (fun v => 0 <= v < 64) vs ->
  sextets (map digit vs) = Some vs.
Proof.
  induction 1 as [|v vs Hv _ IH]; [reflexivity|].
  cbn [map sextets]. rewrite IH.
  now destruct (@digit_spec v Hv) as (-> & _).
Qed.

Lemma remove_whitespace_digits (vs : list Z) (pad : list ascii) :
  Forall (fun v => 0 <= v < 64) vs ->
  Forall (fun c => is_equals c = true) pad ->
  remove_whitespace (map digit vs ++ pad) = map digit vs ++ pad.
Proof.
  intros Hvs Hpad. unfold remove_whitespace. rewrite filter_app. f_equal.
  - induction Hvs as [|v vs Hv _ IH]; [reflexivity|].
    cbn [map filter].
    destruct (@digit_spec v Hv) as (_ & -> & _). cbn [negb]. now rewrite IH.
  - induction Hpad as [|c pad Hc _ IH]; [reflexivity|].
    cbn [filter].
    assert (Hws : is_ascii_whitespace c = false).
    { unfold is_equals in Hc. apply Z.eqb_eq in Hc.
      unfold is_ascii_whitespace. rewrite Hc. reflexivity. }
    rewrite Hws. cbn [negb]. now rewrite IH.
Qed.

Lemma padding_equals (bs : list ascii) :
  Forall (fun c => is_equals c = true) (padding bs).
Proof.
  induction bs as [|x|x y|x y z r IH] using list_triple_ind;
    cbn [padding]; repeat constructor; assumption.
Qed.

(** The lengths, modulo 4. *)
Lemma mod4_step (n : nat) :
  Z.of_nat (S (S (S (S n)))) mod 4 = Z.of_nat n mod 4.
Proof.
  replace (Z.of_nat (S (S (S (S n))))) with (Z.of_nat n + 1 * 4) by lia.
  apply Z_mod_plus_full.
Qed.

Lemma encoded_length (bs : list ascii) :
  Z.of_nat (List.length (map digit (sextets_of bs) ++ padding bs)) mod 4 = 0.
Proof.
  induction bs as [|x|x y|x y z r IH] using list_triple_ind; try reflexivity.
  cbn [sextets_of padding map app List.length]. now rewrite mod4_step.
Qed.

Lemma unpadded_length (bs : list ascii) :
  (Z.of_nat (List.length (map digit (sextets_of bs))) mod 4 =? 1) = false.
Proof.
  induction bs as [|x|x y|x y z r IH] using list_triple_ind; try reflexivity.
  cbn [sextets_of map List.length]. now rewrite mod4_step.
Qed.

(** Padding is present only after a digit. *)
Lemma padding_cases (bs : list ascii) :
  padding bs = []
  \/ (padding bs = ["="%char] /\ sextets_of bs <> [])
  \/ (padding bs = ["="%char; "="%char] /\ sextets_of bs <> []).
Proof.
  induction bs as [|x|x y|x y z r IH] using list_triple_ind.
  - now left.
  - right; right. split; [reflexivity | discriminate].
  - right; left. split; [reflexivity | discriminate].
  - cbn [padding sextets_of].
    destruct IH as [H|[[H _]|[H _]]]; rewrite H;
      [now left | right; left | right; right];
      (split; [reflexivity | discriminate]).
Qed.

Lemma strip_padding_encoded (bs : list ascii) :
  strip_padding (map digit (sextets_of bs) ++ padding bs)
  = map digit (sextets_of bs).
Proof.
  unfold strip_padding. rewrite encoded_length. cbn [Z.eqb].
  rewrite rev_app_distr.
  pose proof (sextets_of_bound bs) as Hb.
  assert (Hlast : forall c r, rev (map digit (sextets_of bs)) = c :: r ->
                              is_equals c = false).
  { intros c r Hrev.
    assert (Hin : In c (map digit (sextets_of bs))).
    { apply in_rev. rewrite Hrev. now left. }
    apply in_map_iff in Hin as (v & <- & Hv).
    rewrite Forall_forall in Hb. now destruct (@digit_spec v (Hb v Hv)). }
  assert (Hsome : sextets_of bs <> [] ->
                  exists c r, rev (map digit (sextets_of bs)) = c :: r).
  { intros Hne. destruct (rev (map digit (sextets_of bs))) as [|c r] eqn:Hrev.
    - apply (f_equal (@rev ascii)) in Hrev. rewrite rev_involutive in Hrev.
      simpl in Hrev. apply map_eq_nil in Hrev. contradiction.
    - now exists c, r. }
  destruct (padding_cases bs) as [Hp|[[Hp Hne]|[Hp Hne]]]; rewrite Hp.
  - cbn [rev app]. rewrite app_nil_r.
    destruct (rev (map digit (sextets_of bs))) as [|c1 [|c2 r]] eqn:Hrev;
      try reflexivity.
    now rewrite (Hlast c1 (c2 :: r) eq_refl).
  - destruct (Hsome Hne) as (c & r & Hrev). rewrite Hrev.
    change (rev ["="%char]) with ["="%char]. cbn [app].
    change (is_equals "="%char) with true. cbv iota.
    rewrite (Hlast c r Hrev), <- Hrev. apply rev_involutive.
  - change (rev ["="%char; "="%char]) with ["="%char; "="%char]. cbn [app].
    change (is_equals "="%char) with true. cbv iota.
    apply rev_involutive.
Qed.

Lemma two_bytes (X Y : Z) :
  0 <= X < 256 -> 0 <= Y < 256 ->
  let w := Z.lor (Z.shiftl X 16) (Z.shiftl Y 8) in
  let a := Z.land (Z.shiftr w 18) 63 in
  let b := Z.land (Z.shiftr w 12) 63 in
  let c := Z.land (Z.shiftr w 6) 63 in
  let w' := Z.lor (Z.lor (Z.shiftl a 12) (Z.shiftl b 6)) c in
  Z.land (Z.shiftr w' 10) 255 = X /\ Z.land (Z.shiftr w' 2) 255 = Y.
Proof.
  intros HX HY. cbv zeta.
  rewrite !land_63, !land_255, !shiftr_div, !Z.shiftl_mul_pow2 by lia.
  change (2 ^ 16) with 65536. change (2 ^ 8) with 256.
  change (2 ^ 18) with 262144. change (2 ^ 12) with 4096.
  change (2 ^ 6) with 64. change (2 ^ 10) with 1024. change (2 ^ 2) with 4.
  rewrite (@lor_add (X * 65536) (Y * 256) 16) by arith.
  set (w := X * 65536 + Y * 256).
  set (a := (w / 262144) mod 64). set (b := (w / 4096) mod 64).
  set (c := (w / 64) mod 64).
  assert (Ha : 0 <= a < 64) by (subst a; apply Z.mod_pos_bound; lia).
  assert (Hb : 0 <= b < 64) by (subst b; apply Z.mod_pos_bound; lia).
  assert (Hc : 0 <= c < 64) by (subst c; apply Z.mod_pos_bound; lia).
  rewrite (@lor_add (a * 4096) (b * 64) 12) by arith.
  rewrite (@lor_add (a * 4096 + b * 64) c 6) by arith.
  assert (Hsame : a * 4096 + b * 64 + c = w / 64)
    by (subst a b c w; Z.div_mod_to_equations; lia).
  rewrite Hsame. subst w.
  split; Z.div_mod_to_equations; lia.
Qed.

Lemma one_byte (X : Z) :
  0 <= X < 256 ->
  let w := Z.shiftl X 16 in
  let a := Z.land (Z.shiftr w 18) 63 in
  let b := Z.land (Z.shiftr w 12) 63 in
  let w' := Z.lor (Z.shiftl a 6) b in
  Z.land (Z.shiftr w' 4) 255 = X.
Proof.
  intros HX. cbv zeta.
  rewrite !land_63, !land_255, !shiftr_div, !Z.shiftl_mul_pow2 by lia.
  change (2 ^ 16) with 65536. change (2 ^ 18) with 262144.
  change (2 ^ 12) with 4096. change (2 ^ 6) with 64. change (2 ^ 4) with 16.
  set (w := X * 65536).
  set (a := (w / 262144) mod 64). set (b := (w / 4096) mod 64).
  assert (Ha : 0 <= a < 64) by (subst a; apply Z.mod_pos_bound; lia).
  assert (Hb : 0 <= b < 64) by (subst b; apply Z.mod_pos_bound; lia).
  rewrite (@lor_add (a * 64) b 6) by arith.
  subst a b w. Z.div_mod_to_equations. lia.
Qed.

Lemma ascii_of_code (c : ascii) : ascii_of_N (Z.to_N (code c)) = c.
Proof. unfold code. now rewrite N2Z.id, ascii_N_embedding. Qed.

Lemma bytes_of_sextets_of (bs : list ascii) :
  bytes_of_sextets (sextets_of bs) = bs.
Proof.
  induction bs as [|x|x y|x y z r IH] using list_triple_ind.
  - reflexivity.
  - cbn [sextets_of bytes_of_sextets]. unfold byte_char.
    rewrite (@one_byte (code x) (code_bound x)).
    now rewrite ascii_of_code.
  - cbn [sextets_of bytes_of_sextets]. unfold byte_char.
    destruct (@two_bytes (code x) (code y) (code_bound x) (code_bound y))
      as (H1 & H2).
    rewrite H1, H2. now rewrite !ascii_of_code.
  - cbn [sextets_of bytes_of_sextets]. rewrite IH. unfold byte_char.
    destruct (@three_bytes (code x) (code y) (code z)
                (code_bound x) (code_bound y) (code_bound z)) as (H1 & H2 & H3).
    rewrite H1, H2, H3. now rewrite !ascii_of_code.
Qed.

(** [atob] undoes [btoa]. *)
Lemma atob_btoa (binary : string) :
  Base64.atob (btoa binary) = Js.Normal binary.
Proof.
  unfold Base64.atob, forgiving_decode, btoa.
  rewrite list_ascii_of_string_of_list_ascii, encode_bytes_split.
  set (bs := list_ascii_of_string binary).
  rewrite remove_whitespace_digits
    by (apply sextets_of_bound || apply padding_equals).
  rewrite strip_padding_encoded, unpadded_length.
  rewrite sextets_digits by apply sextets_of_bound.
  rewrite bytes_of_sextets_of. subst bs.
  now rewrite string_of_list_ascii_of_string.
Qed.

(** The two bytes of a 16-bit sample, read back by the [Int16Array]. *)
Lemma code_byte_char (v : Z) : code (byte_char v) = v mod 256.
Proof.
  unfold code, byte_char. rewrite land_255.
  pose proof (Z.mod_pos_bound v 256 ltac:(lia)) as Hb.
  rewrite N_ascii_embedding by lia. lia.
Qed.

Lemma int16_of_bytes_sample (s : Z) :
  -32768 <= s <= 32767 ->
  TypedArray.int16_of_bytes (s mod 256) (Z.shiftr s 8 mod 256) = s.
Proof.
  intros Hs. unfold TypedArray.int16_of_bytes.
  rewrite Z.lor_comm, shiftr_div by lia. change (2 ^ 8) with 256.
  rewrite lor_shiftl_add by (try lia; apply Z.mod_pos_bound; lia).
  change (2 ^ 8) with 256.
  destruct (Z.ltb_spec ((s / 256) mod 256 * 256 + s mod 256) 32768);
    Z.div_mod_to_equations; lia.
Qed.

Lemma Uint8Array_from_encode (samples : list Z) :
  TypedArray.Uint8Array_from (Pcm.encode samples)
  = flat_map (fun s => [s mod 256; Z.shiftr s 8 mod 256]) samples.
Proof.
  unfold TypedArray.Uint8Array_from, Pcm.encode.
  rewrite list_ascii_of_string_of_list_ascii.
  induction samples as [|s r IH]; [reflexivity|].
  cbn [flat_map Pcm.int16_bytes app map].
  rewrite !code_byte_char, !Z.mod_mod, IH by lia. reflexivity.
Qed.

(** Encoding samples and decoding the payload gives the samples back. *)
Lemma dataInt16_of_encode (samples : list Z) :
  Forall (fun s => -32768 <= s <= 32767) samples ->
  dataInt16_of (btoa (Pcm.encode samples)) = Js.Normal samples.
Proof.
  intros Hrange. unfold dataInt16_of.
  rewrite atob_btoa, Uint8Array_from_encode.
  unfold TypedArray.Int16Array_of_buffer.
  assert (Hlen : Z.of_nat (List.length
                   (flat_map (fun s => [s mod 256; Z.shiftr s 8 mod 256])
                      samples)) mod 2 = 0).
  { induction samples as [|s r IH]; [reflexivity|].
    cbn [flat_map app List.length].
    replace (Z.of_nat (S (S (List.length
               (flat_map (fun s => [s mod 256; Z.shiftr s 8 mod 256]) r)))))
      with (Z.of_nat (List.length
               (flat_map (fun s => [s mod 256; Z.shiftr s 8 mod 256]) r))
            + 1 * 2) by lia.
    rewrite Z_mod_plus_full. apply IH. now inversion Hrange. }
  rewrite Hlen. cbn [Z.eqb]. f_equal. clear Hlen.
  induction Hrange as [|s r Hs _ IH]; [reflexivity|].
  cbn [flat_map app TypedArray.int16_elements].
  rewrite (@int16_of_bytes_sample s Hs), IH. reflexivity.
Qed.

End RoundTrip.

(** ** What a call of [playVoice] does *)

Section PlayVoice.

Import TypedArray.

(** The guard of line 93. *)
Lemma playVoice_guard (isVoiceEnabled : bool) (base64 : Js.value) (w : World) :
  isVoiceEnabled = false \/ Js.truthy base64 = false ->
  playVoice isVoiceEnabled base64 w = (Js.Fulfilled, w).
Proof.
  intros [-> | Hf]; unfold playVoice, async; simpl; [reflexivity|].
  rewrite Hf. destruct isVoiceEnabled; reflexivity.
Qed.

(** How [bind] runs each platform call. *)
Lemma bind_lift {A B : Type} (c : Js.completion A) (k : A -> M B) (w : World) :
  bind (lift c) k w =
    match c with
    | Js.Normal a => k a w
    | Js.Throw e => (Js.Throw e, w)
    end.
Proof. destruct c; reflexivity. Qed.

Lemma bind_atob {B : Type} (data : string) (k : string -> M B) (w : World) :
  bind (atob data) k w =
    match Base64.atob data with
    | Js.Normal binary => k binary (with_calls w [Atob data])
    | Js.Throw e => (Js.Throw e, with_calls w [Atob data])
    end.
Proof.
  unfold atob, bind, record, lift.
  destruct (Base64.atob data); reflexivity.
Qed.

Lemma bind_createBuffer {B : Type} (ctx : AudioContext) (dataInt16 : list Z)
    (k : AudioBuffer -> M B) (w : World) :
  let len := Z.of_nat (List.length dataInt16) in
  let w' := with_calls w [CreateBuffer (ctx_id ctx) 1 len 24000] in
  bind (createBuffer ctx 1 len 24000) k w =
    match dataInt16 with
    | [] => (Js.Throw Js.NotSupportedError, w')
    | _ :: _ =>
        k {| buf_id := nextId w; numberOfChannels := 1; buf_length := len;
             sampleRate := 24000;
             channels := [Float32Array_new (List.length dataInt16)] |}
          {| nextId := S (nextId w);
             audioContextRef := audioContextRef w;
             calls := calls w' |}
    end.
Proof.
  intros len w'. subst w'. unfold createBuffer, bind at 1, record.
  destruct dataInt16 as [|s rest]; [reflexivity|].
  assert (Hlen : (len <? 1) = false) by (apply Z.ltb_ge; subst len; simpl; lia).
  rewrite Hlen. cbn [orb Z.ltb Z.compare].
  unfold bind, fresh, ret. cbn [nextId audioContextRef calls with_calls].
  subst len. rewrite Nat2Z.id. reflexivity.
Qed.

Lemma bind_setChannelData0 {B : Type} (id : ObjId) (dataInt16 : list Z)
    (k : AudioBuffer -> M B) (w : World) :
  bind (setChannelData0
          {| buf_id := id; numberOfChannels := 1;
             buf_length := Z.of_nat (List.length dataInt16);
             sampleRate := 24000;
             channels := [Float32Array_new (List.length dataInt16)] |}
          (normalizedData_of dataInt16)) k w
  = k (played_buffer id dataInt16) w.
Proof.
  unfold setChannelData0. cbn [channels].
  rewrite set_same_length
    by (rewrite normalizedData_of_length; unfold Float32Array_new;
        now rewrite repeat_length).
  rewrite normalizedData_of_map. reflexivity.
Qed.

Lemma bind_acquire {B : Type} (k : AudioContext -> M B) (w : World) :
  bind read_audioContextRef (fun current =>
    bind (match current with
          | None => bind (new_AudioContext 24000)
                      (fun c => write_audioContextRef (Some c))
          | Some _ => ret tt
          end)
      (fun _ => bind read_audioContextRef (fun current =>
         bind (match current with
               | Some c => ret c
               | None => throw Js.TypeError
               end) k))) w
  = let (ctx, w1) := acquire w in k ctx w1.
Proof.
  destruct w as [n [c|] cs]; reflexivity.
Qed.

Lemma playVoice_enabled (base64 : Js.value) (w : World) :
  Js.truthy base64 = true ->
  playVoice true base64 w =
    let (ctx, w1) := acquire w in
    let data := Js.to_string base64 in
    match Base64.atob data with
    | Js.Throw e => (Js.Rejected e, with_calls w1 [Atob data])
    | Js.Normal binary =>
        match Int16Array_of_buffer (Uint8Array_from binary) with
        | Js.Throw e => (Js.Rejected e, with_calls w1 [Atob data])
        | Js.Normal dataInt16 =>
            match dataInt16 with
            | [] =>
                (Js.Rejected Js.NotSupportedError,
                 with_calls w1 [Atob data; CreateBuffer (ctx_id ctx) 1 0 24000])
            | _ :: _ =>
                (Js.Fulfilled,
                 {| nextId := S (S (nextId w1));
                    audioContextRef := audioContextRef w1;
                    calls := calls w1 ++
                             playback_calls ctx (nextId w1) data dataInt16 |})
            end
        end
    end.
Proof.
  intros Ht. unfold playVoice, async. rewrite Ht. cbn [negb orb].
  rewrite bind_acquire.
  destruct (acquire w) as [ctx w1].
  rewrite bind_atob. cbv zeta.
  destruct (Base64.atob (Js.to_string base64)) as [binary|e]; [|reflexivity].
  rewrite bind_lift.
  destruct (Int16Array_of_buffer (Uint8Array_from binary)) as [dataInt16|e];
    [|reflexivity].
  rewrite bind_createBuffer.
  destruct dataInt16 as [|s rest].
  - unfold with_calls. cbn [calls nextId audioContextRef List.length Z.of_nat].
    rewrite <- app_assoc. reflexivity.
  - rewrite bind_setChannelData0.
    unfold createBufferSource, connect, start, bind, fresh, record, ret,
      with_calls, playback_calls, played_source.
    cbn [calls nextId audioContextRef src_id src_ctx src_buffer src_output].
    rewrite <- !app_assoc. reflexivity.
Qed.

Lemma playVoice_cases (isVoiceEnabled : bool) (base64 : Js.value) (w : World) :
  playVoice_spec isVoiceEnabled base64 w
    (fst (playVoice isVoiceEnabled base64 w))
    (snd (playVoice isVoiceEnabled base64 w)).
Proof.
  destruct (passes isVoiceEnabled base64) eqn:Hp.
  - unfold passes in Hp. apply andb_true_iff in Hp as [-> Ht].
    rewrite (playVoice_enabled _ w Ht).
    pose proof (@pv_decode_error true base64 w) as Herr.
    pose proof (@pv_no_frames true base64 w) as Hnone.
    pose proof (@pv_played true base64 w) as Hplay.
    unfold passes, dataInt16_of in Herr, Hnone, Hplay.
    rewrite Ht in Herr, Hnone, Hplay.
    destruct (acquire w) as [ctx w1]. cbv zeta.
    cbn [fst snd] in Herr, Hnone, Hplay.
    destruct (Base64.atob (Js.to_string base64)) as [binary|e]; cbn [fst snd];
      [|now apply Herr].
    destruct (Int16Array_of_buffer (Uint8Array_from binary))
      as [[|s rest]|e]; cbn [fst snd].
    + now apply Hnone.
    + apply Hplay; [reflexivity|reflexivity|discriminate].
    + now apply Herr.
  - rewrite playVoice_guard.
    + now apply pv_noop.
    + unfold passes in Hp. apply andb_false_iff in Hp. tauto.
Qed.

End PlayVoice.

(** ** What a call records *)

Section Records.

Import TypedArray.

Lemma skipn_length_app {A : Type} (l r : list A) :
  skipn (List.length l) (l ++ r) = r.
Proof. induction l as [|x l IH]; simpl; [reflexivity | exact IH]. Qed.

Lemma acquire_calls (w : World) :
  calls (snd (acquire w)) =
    calls w ++ match audioContextRef w with
               | Some _ => []
               | None => [NewAudioContext (fst (acquire w))]
               end.
Proof.
  unfold acquire. destruct (audioContextRef w); simpl;
    [now rewrite app_nil_r | reflexivity].
Qed.

Lemma acquire_started (w : World) :
  started (calls (snd (acquire w))) = started (calls w).
Proof.
  rewrite acquire_calls. unfold started. rewrite flat_map_app.
  destruct (audioContextRef w); simpl; now rewrite app_nil_r.
Qed.

Lemma new_calls_acquire (w : World) (cs : list call) :
  started (new_calls w (with_calls (snd (acquire w)) cs)) = started cs.
Proof.
  unfold new_calls, with_calls. cbn [calls].
  rewrite acquire_calls, <- app_assoc, skipn_length_app.
  unfold started. rewrite flat_map_app.
  destruct (audioContextRef w); reflexivity.
Qed.

(** A payload that [atob] accepts with no sample-less result is not
    the empty string. *)
Lemma truthy_Str (base64 : string) :
  base64 <> ""%string -> Js.truthy (Js.Str base64) = true.
Proof. destruct base64; [congruence | reflexivity]. Qed.

(** A call whose decode step throws: rejected with that exception
    after [atob] alone has been called. *)
Lemma playVoice_decode_throws (base64 : string) (e : Js.error) (w : World) :
  base64 <> ""%string ->
  dataInt16_of base64 = Js.Throw e ->
  playVoice true (Js.Str base64) w =
    (Js.Rejected e, with_calls (snd (acquire w)) [Atob base64]).
Proof.
  intros Hne Hthrow.
  rewrite (playVoice_enabled _ w (truthy_Str Hne)).
  unfold dataInt16_of in Hthrow. cbn [Js.to_string].
  destruct (acquire w) as [ctx w1]. cbv zeta. cbn [snd].
  destruct (Base64.atob base64) as [binary|e'].
  - rewrite Hthrow. reflexivity.
  - congruence.
Qed.

(** A call whose decode step yields at least one sample: fulfilled,
    with one buffer and one source made and started. *)
Lemma playVoice_plays (base64 : string) (dataInt16 : list Z) (w : World) :
  base64 <> ""%string ->
  dataInt16_of base64 = Js.Normal dataInt16 ->
  dataInt16 <> [] ->
  playVoice true (Js.Str base64) w =
    (Js.Fulfilled,
     {| nextId := S (S (nextId (snd (acquire w))));
        audioContextRef := audioContextRef (snd (acquire w));
        calls := calls (snd (acquire w)) ++
                 playback_calls (fst (acquire w)) (nextId (snd (acquire w)))
                   base64 dataInt16 |}).
Proof.
  intros Hne Hdec Hsome.
  rewrite (playVoice_enabled _ w (truthy_Str Hne)).
  unfold dataInt16_of in Hdec. cbn [Js.to_string].
  destruct (acquire w) as [ctx w1]. cbv zeta. cbn [fst snd].
  destruct (Base64.atob base64) as [binary|e']; [|discriminate].
  rewrite Hdec. destruct dataInt16; [congruence | reflexivity].
Qed.

(** The sources started by a call that went through. *)
Lemma started_played (w : World) (n : ObjId) (ref : option AudioContext)
    (data : string) (dataInt16 : list Z) :
  started (new_calls w
    {| nextId := n;
       audioContextRef := ref;
       calls := calls (snd (acquire w)) ++
                playback_calls (fst (acquire w)) (nextId (snd (acquire w)))
                  data dataInt16 |})
  = [played_source (fst (acquire w)) (nextId (snd (acquire w))) dataInt16].
Proof.
  unfold new_calls. cbn [calls].
  rewrite acquire_calls, <- app_assoc, skipn_length_app.
  unfold started. rewrite flat_map_app.
  destruct (audioContextRef w); reflexivity.
Qed.

(** The calls added past the guard: the construction of the context
    when the ref was empty, then the rest. *)
Lemma new_calls_past_guard (w w' : World) (rest : list call) :
  calls w' = calls (snd (acquire w)) ++ rest ->
  new_calls w w' =
    match audioContextRef w with
    | Some _ => []
    | None => [NewAudioContext (fst (acquire w))]
    end ++ rest.
Proof.
  intros Hcalls. unfold new_calls.
  now rewrite Hcalls, acquire_calls, <- app_assoc, skipn_length_app.
Qed.

End Records.

(** ** The samples of any payload *)

Section Samples.

Import TypedArray.

Lemma int16_of_bytes_range (lo hi : Z) :
  0 <= lo < 256 -> 0 <= hi < 256 ->
  -32768 <= int16_of_bytes lo hi <= 32767.
Proof.
  intros Hlo Hhi. unfold int16_of_bytes.
  rewrite Z.lor_comm, lor_shiftl_add by lia. change (2 ^ 8) with 256.
  destruct (Z.ltb_spec (hi * 256 + lo) 32768); lia.
Qed.

Lemma int16_elements_range (buffer : list Z) :
  Forall (fun b => 0 <= b < 256) buffer ->
  Forall (fun s => -32768 <= s <= 32767) (int16_elements buffer).
Proof.
  induction buffer as [|x|x y l IH] using list_pair_ind; intros Hb;
    cbn [int16_elements]; try constructor.
  - inversion Hb as [|? ? Hx Hb']. inversion Hb' as [|? ? Hy Hl].
    now apply int16_of_bytes_range.
  - apply IH. inversion Hb as [|? ? _ Hb']. now inversion Hb'.
Qed.

Lemma Uint8Array_from_range (binary : string) :
  Forall (fun b => 0 <= b < 256) (Uint8Array_from binary).
Proof.
  unfold Uint8Array_from. apply Forall_forall. intros b Hb.
  apply in_map_iff in Hb as (c & <- & _).
  apply Z.mod_pos_bound. lia.
Qed.

(** Whatever the payload, the samples decoded from it are signed
    16-bit integers. *)
Lemma dataInt16_of_range (data : string) (dataInt16 : list Z) :
  dataInt16_of data = Js.Normal dataInt16 ->
  Forall (fun s => -32768 <= s <= 32767) dataInt16.
Proof.
  unfold dataInt16_of, Int16Array_of_buffer.
  destruct (Base64.atob data) as [binary|]; [|discriminate].
  destruct (_ =? 0); [|discriminate].
  intros H. injection H as <-.
  apply int16_elements_range, Uint8Array_from_range.
Qed.

(** The bytes of the decoded samples, low byte first, are the bytes of
    the payload. *)
Lemma byte_char_mod (v : Z) :
  Base64.byte_char v = Base64.byte_char (v mod 256).
Proof.
  rewrite <- (byte_char_code (Base64.byte_char v)) at 1.
  now rewrite code_byte_char.
Qed.

Lemma int16_bytes_of_bytes (lo hi : Z) :
  0 <= lo < 256 -> 0 <= hi < 256 ->
  Pcm.int16_bytes (int16_of_bytes lo hi)
  = [Base64.byte_char lo; Base64.byte_char hi].
Proof.
  intros Hlo Hhi. unfold Pcm.int16_bytes, int16_of_bytes.
  rewrite Z.lor_comm, lor_shiftl_add by lia. change (2 ^ 8) with 256.
  rewrite (byte_char_mod (if _ <? _ then _ else _)).
  rewrite (byte_char_mod (Z.shiftr _ _)), shiftr_div by lia.
  change (2 ^ 8) with 256.
  f_equal; [|f_equal]; f_equal;
    destruct (Z.ltb_spec (hi * 256 + lo) 32768);
    Z.div_mod_to_equations; lia.
Qed.

Lemma encode_int16_elements (binary : string) :
  Nat.even (String.length binary) = true ->
  Pcm.encode (int16_elements (Uint8Array_from binary)) = binary.
Proof.
  unfold Pcm.encode, Uint8Array_from. intros Heven.
  rewrite <- (string_of_list_ascii_of_string binary) at 2. f_equal.
  assert (Hlen : Nat.even (List.length (list_ascii_of_string binary)) = true).
  { clear -Heven. revert Heven.
    assert (H : forall s, List.length (list_ascii_of_string s) = String.length s)
      by (induction s as [|c r IH]; simpl; congruence).
    now rewrite H. }
  clear Heven.
  induction (list_ascii_of_string binary) as [|x|x y l IH] using list_pair_ind.
  - reflexivity.
  - discriminate Hlen.
  - cbn [map int16_elements flat_map].
    pose proof (code_bound x) as Hx. pose proof (code_bound y) as Hy.
    rewrite !Z.mod_small by assumption.
    rewrite int16_bytes_of_bytes by assumption.
    rewrite !byte_char_code. cbn [app]. f_equal. f_equal.
    apply IH. exact Hlen.
Qed.

(** The samples of a payload are the 16-bit integers whose bytes, low
    byte first, are the bytes [atob] gives. *)
Lemma dataInt16_of_bytes (data : string) (dataInt16 : list Z) :
  dataInt16_of data = Js.Normal dataInt16 ->
  Base64.atob data = Js.Normal (Pcm.encode dataInt16).
Proof.
  unfold dataInt16_of, Int16Array_of_buffer.
  destruct (Base64.atob data) as [binary|]; [|discriminate].
  destruct (Z.eqb_spec (Z.of_nat (List.length (Uint8Array_from binary)) mod 2) 0)
    as [Heven|]; [|discriminate].
  intros H. injection H as <-. f_equal. symmetry.
  apply encode_int16_elements.
  rewrite Uint8Array_from_length in Heven.
  destruct (Nat.even (String.length binary)) eqn:He; [reflexivity|].
  exfalso. apply (f_equal negb) in He. rewrite Nat.negb_even in He.
  apply Nat.odd_spec in He as [k Hk]. rewrite Hk in Heven.
  rewrite Nat2Z.inj_add, Nat2Z.inj_mul, Z.add_comm, Z.mul_comm in Heven.
  rewrite Z_mod_plus_full in Heven. discriminate.
Qed.

End Samples.

(** ** One call of [playVoice] *)

(** C4. When the payload is the empty string or absent ([undefined],
    or [null]), [playVoice] is a no-op whatever the voice setting: the
    promise is fulfilled and the world is the one before the call, so
    nothing was decoded ([atob] was not called) and no playback was
    started. *)
Theorem playVoice_empty_or_absent (isVoiceEnabled : bool) (w : World) :
  playVoice isVoiceEnabled (Js.Str "") w = (Js.Fulfilled, w)
  /\ playVoice isVoiceEnabled Js.Undefined w = (Js.Fulfilled, w)
  /\ playVoice isVoiceEnabled Js.Null w = (Js.Fulfilled, w)
  /\ decoded (new_calls w (snd (playVoice isVoiceEnabled (Js.Str "") w))) = []
  /\ started (new_calls w (snd (playVoice isVoiceEnabled (Js.Str "") w))) = []
  /\ decoded (new_calls w (snd (playVoice isVoiceEnabled Js.Undefined w))) = []
  /\ started (new_calls w (snd (playVoice isVoiceEnabled Js.Undefined w))) = [].
Proof.
  assert (Hnew : new_calls w w = []) by (unfold new_calls; apply skipn_all).
  rewrite !playVoice_guard by (right; reflexivity).
  cbn [snd]. rewrite Hnew. repeat (split; try reflexivity).
Qed.

(** C9. When voice output is disabled, [playVoice] is a no-op for every
    payload, the valid non-empty ones included: the promise is
    fulfilled, the world is the one before the call, so [atob] was not
    called, no context was constructed and none was used. *)
Theorem playVoice_disabled (base64 : Js.value) (w : World) :
  playVoice false base64 w = (Js.Fulfilled, w)
  /\ audioContextRef (snd (playVoice false base64 w)) = audioContextRef w
  /\ new_calls w (snd (playVoice false base64 w)) = [].
Proof.
  rewrite playVoice_guard by (left; reflexivity).
  cbn [snd]. unfold new_calls. rewrite skipn_all. auto.
Qed.

(** C1, as the code has it. For every base64 payload that decodes to an
    odd number of raw bytes, the [Int16Array] constructor throws a
    RangeError: no sample is decoded, the promise of [playVoice] is
    rejected with that error once [atob] has been called, and no
    playback is started. *)
Theorem odd_byte_count_is_rejected (base64 binary : string) (w : World)
    (Hdec : Base64.atob base64 = Js.Normal binary)
    (Hodd : Nat.odd (String.length binary) = true) :
  TypedArray.Int16Array_of_buffer (TypedArray.Uint8Array_from binary)
    = Js.Throw Js.RangeError
  /\ dataInt16_of base64 = Js.Throw Js.RangeError
  /\ playVoice true (Js.Str base64) w =
       (Js.Rejected Js.RangeError, with_calls (snd (acquire w)) [Atob base64])
  /\ started (new_calls w (snd (playVoice true (Js.Str base64) w))) = [].
Proof.
  assert (Hthrow : TypedArray.Int16Array_of_buffer
                     (TypedArray.Uint8Array_from binary)
                   = Js.Throw Js.RangeError).
  { apply Int16Array_of_odd. now rewrite Uint8Array_from_length. }
  assert (Hd : dataInt16_of base64 = Js.Throw Js.RangeError).
  { unfold dataInt16_of. now rewrite Hdec. }
  assert (Hne : base64 <> ""%string).
  { intros ->. vm_compute in Hdec. injection Hdec as <-. discriminate Hodd. }
  rewrite (playVoice_decode_throws w Hne Hd). cbn [snd].
  rewrite new_calls_acquire. auto.
Qed.

(** The theorem at the payload ["QUJD"], the base64 text of the three
    bytes ["ABC"]. *)
Lemma odd_byte_count_is_rejected_witness :
  Base64.atob "QUJD" = Js.Normal "ABC"%string
  /\ playVoice true (Js.Str "QUJD") initial =
       (Js.Rejected Js.RangeError,
        with_calls (snd (acquire initial)) [Atob "QUJD"]).
Proof.
  assert (Hdec : Base64.atob "QUJD" = Js.Normal "ABC"%string) by reflexivity.
  assert (Hodd : Nat.odd (String.length "ABC") = true) by reflexivity.
  split; [exact Hdec|].
  exact (proj1 (proj2 (proj2
           (@odd_byte_count_is_rejected "QUJD" "ABC" initial Hdec Hodd)))).
Defined.

(** C1 as stated fails: the payload ["QUJD"] decodes to 3 raw bytes,
    and the call yields no sample but a rejected promise. *)
Lemma odd_payload_raises :
  Base64.atob "QUJD" = Js.Normal "ABC"%string
  /\ List.length (TypedArray.Uint8Array_from "ABC") = 3%nat
  /\ dataInt16_of "QUJD" = Js.Throw Js.RangeError
  /\ playVoice true (Js.Str "QUJD") initial =
       (Js.Rejected Js.RangeError,
        {| nextId := 1%nat;
           audioContextRef := Some {| ctx_id := 0%nat; ctx_sampleRate := 24000 |};
           calls := [NewAudioContext {| ctx_id := 0%nat; ctx_sampleRate := 24000 |};
                     Atob "QUJD"] |}).
Proof. repeat split. Qed.

(** C3, as the code has it. When voice output is enabled, for every
    string that [atob] rejects (a character outside the alphabet,
    misplaced padding, or a length of 1 modulo 4, once whitespace is
    removed), the promise of [playVoice] is rejected with the decoder's
    InvalidCharacterError; nothing but [atob] is called after the
    context is in place, so no buffer is made and no playback
    started.  When voice output is disabled the call is a no-op and
    raises nothing. *)
Theorem malformed_payload_is_rejected (base64 : string) (w : World)
    (Hbad : Base64.forgiving_decode base64 = None) :
  playVoice true (Js.Str base64) w =
    (Js.Rejected Js.InvalidCharacterError,
     with_calls (snd (acquire w)) [Atob base64])
  /\ started (new_calls w (snd (playVoice true (Js.Str base64) w))) = []
  /\ playVoice false (Js.Str base64) w = (Js.Fulfilled, w).
Proof.
  assert (Hd : dataInt16_of base64 = Js.Throw Js.InvalidCharacterError).
  { unfold dataInt16_of, Base64.atob. now rewrite Hbad. }
  assert (Hne : base64 <> ""%string) by (intros ->; discriminate Hbad).
  rewrite (playVoice_decode_throws w Hne Hd). cbn [snd].
  rewrite new_calls_acquire.
  rewrite playVoice_guard by (left; reflexivity). auto.
Qed.

(** The theorem at the payload ["!"]. *)
Lemma malformed_payload_is_rejected_witness :
  Base64.forgiving_decode "!" = None
  /\ playVoice true (Js.Str "!") initial =
       (Js.Rejected Js.InvalidCharacterError,
        with_calls (snd (acquire initial)) [Atob "!"]).
Proof.
  assert (Hbad : Base64.forgiving_decode "!" = None) by reflexivity.
  split; [exact Hbad|].
  exact (proj1 (@malformed_payload_is_rejected "!" initial Hbad)).
Defined.

(** C3 as stated fails: with voice output disabled the malformed
    payload ["!"] raises nothing; and the payload ["QUJDRA"], which
    lacks its padding ["=="], is decoded and played. *)
Lemma malformed_payload_not_raised :
  Base64.atob "!" = Js.Throw Js.InvalidCharacterError
  /\ playVoice false (Js.Str "!") initial = (Js.Fulfilled, initial)
  /\ Base64.atob "QUJDRA" = Js.Normal "ABCD"%string
  /\ fst (playVoice true (Js.Str "QUJDRA") initial) = Js.Fulfilled.
Proof. repeat split. Qed.

(** C5. For every payload that [atob] decodes to a byte sequence of
    even length [n], the [Int16Array] over those bytes has exactly
    [n / 2] elements, and that is the length [playVoice] passes to
    [createBuffer]; every byte sequence has such a payload, the one
    [btoa] gives. *)
Theorem decoded_sample_count (base64 binary : string) (w : World)
    (Hdec : Base64.atob base64 = Js.Normal binary)
    (Heven : Nat.even (String.length binary) = true) :
  exists dataInt16 : list Z,
    dataInt16_of base64 = Js.Normal dataInt16
    /\ List.length dataInt16 = (String.length binary / 2)%nat
    /\ (base64 <> ""%string ->
        In (CreateBuffer (ctx_id (fst (acquire w))) 1
              (Z.of_nat (String.length binary / 2)) 24000)
           (new_calls w (snd (playVoice true (Js.Str base64) w))))
    /\ Base64.atob (Base64.btoa binary) = Js.Normal binary.
Proof.
  exists (TypedArray.int16_elements (TypedArray.Uint8Array_from binary)).
  assert (Hd : dataInt16_of base64 =
               Js.Normal (TypedArray.int16_elements
                            (TypedArray.Uint8Array_from binary))).
  { unfold dataInt16_of. rewrite Hdec. apply Int16Array_of_even.
    now rewrite Uint8Array_from_length. }
  assert (Hlen : List.length (TypedArray.int16_elements
                                (TypedArray.Uint8Array_from binary))
                 = (String.length binary / 2)%nat).
  { now rewrite int16_elements_length, Uint8Array_from_length. }
  split; [exact Hd|]. split; [exact Hlen|].
  split; [|apply atob_btoa].
  intros Hne.
  pose proof (playVoice_cases true (Js.Str base64) w) as Hcases.
  assert (Hp : passes true (Js.Str base64) = true) by exact (truthy_Str Hne).
  unfold new_calls.
  inversion Hcases as [Hno | e _ He | _ Hnil | d _ Hdd Hsome];
    cbn [Js.to_string] in *; try congruence.
  - unfold with_calls. cbn [calls].
    rewrite acquire_calls, <- app_assoc, skipn_length_app.
    rewrite Hd in Hnil. injection Hnil as Hnil.
    rewrite Hnil in Hlen. cbn [List.length] in Hlen. rewrite <- Hlen.
    apply in_or_app. right. right. left. reflexivity.
  - cbn [calls].
    rewrite acquire_calls, <- app_assoc, skipn_length_app.
    rewrite Hd in Hdd. injection Hdd as <-.
    apply in_or_app. right. unfold playback_calls. rewrite Hlen.
    right. left. reflexivity.
Qed.

(** The theorem at the payload ["QUJDRA=="], the base64 text of the
    four bytes ["ABCD"]. *)
Lemma decoded_sample_count_witness :
  Base64.atob "QUJDRA==" = Js.Normal "ABCD"%string
  /\ Nat.even (String.length "ABCD") = true
  /\ exists dataInt16 : list Z,
       dataInt16_of "QUJDRA==" = Js.Normal dataInt16
       /\ List.length dataInt16 = 2%nat.
Proof.
  assert (Hdec : Base64.atob "QUJDRA==" = Js.Normal "ABCD"%string)
    by reflexivity.
  assert (Heven : Nat.even (String.length "ABCD") = true) by reflexivity.
  split; [exact Hdec|]. split; [exact Heven|].
  destruct (@decoded_sample_count "QUJDRA==" "ABCD" initial Hdec Heven)
    as (dataInt16 & Hd & Hlen & _ & _).
  exists dataInt16. split; [exact Hd | exact Hlen].
Defined.

(** C6, as the code has it. For every payload whose decode step
    succeeds, with the samples [dataInt16] (the 16-bit integers whose
    bytes, low byte first, are the bytes [atob] gives, in their order):
    every buffer the call asks [createBuffer] for has 1 channel, the
    number of samples as its length and a sample rate of 24000 Hz;
    every source the call starts plays such a buffer, whose single
    channel is what the loop of lines 111 to 114 computes, as many
    floats as there are samples, the float at each index being exactly
    the sample at that index divided by 32768;
    when voice output is enabled and there is at least one sample, the
    promise is fulfilled, and the call asks for one buffer and starts
    exactly one such source;
    when voice output is disabled or there is no sample, no buffer is
    constructed and nothing is started: the call constructs no object
    but, at most, the context, and with voice output enabled and a
    payload that is not empty it is rejected with the
    NotSupportedError of [createBuffer], asked for length 0. *)
Theorem playback_buffer_shape (isVoiceEnabled : bool) (base64 : string)
    (dataInt16 : list Z) (w : World)
    (Hdec : dataInt16_of base64 = Js.Normal dataInt16) :
  (Base64.atob base64 = Js.Normal (Pcm.encode dataInt16)
   /\ Forall (fun s => -32768 <= s <= 32767) dataInt16)
  /\ (forall args : Z * Z * Z,
      In args (buffers_requested (new_calls w
                 (snd (playVoice isVoiceEnabled (Js.Str base64) w)))) ->
      args = (1, Z.of_nat (List.length dataInt16), 24000))
  /\ (forall source : AudioBufferSourceNode,
      In source (started (new_calls w
                   (snd (playVoice isVoiceEnabled (Js.Str base64) w)))) ->
      exists buffer : AudioBuffer,
        src_buffer source = Some buffer
        /\ numberOfChannels buffer = 1
        /\ buf_length buffer = Z.of_nat (List.length dataInt16)
        /\ sampleRate buffer = 24000
        /\ channels buffer = [normalizedData_of dataInt16]
        /\ List.length (normalizedData_of dataInt16) = List.length dataInt16
        /\ map Num.value (normalizedData_of dataInt16)
           = map (fun s => Some (Qred (s # 32768))) dataInt16)
  /\ (isVoiceEnabled = true -> dataInt16 <> [] ->
      fst (playVoice isVoiceEnabled (Js.Str base64) w) = Js.Fulfilled
      /\ started (new_calls w
                    (snd (playVoice isVoiceEnabled (Js.Str base64) w)))
         = [played_source (fst (acquire w)) (nextId (snd (acquire w)))
              dataInt16]
      /\ buffers_requested (new_calls w
            (snd (playVoice isVoiceEnabled (Js.Str base64) w)))
         = [(1, Z.of_nat (List.length dataInt16), 24000)])
  /\ (isVoiceEnabled = false \/ dataInt16 = [] ->
      started (new_calls w
                 (snd (playVoice isVoiceEnabled (Js.Str base64) w))) = []
      /\ nextId (snd (playVoice isVoiceEnabled (Js.Str base64) w))
         = (nextId w
            + List.length (contexts_created (new_calls w
                (snd (playVoice isVoiceEnabled (Js.Str base64) w)))))%nat
      /\ (isVoiceEnabled = false ->
          playVoice isVoiceEnabled (Js.Str base64) w = (Js.Fulfilled, w))
      /\ (isVoiceEnabled = true -> base64 <> ""%string ->
          fst (playVoice isVoiceEnabled (Js.Str base64) w)
          = Js.Rejected Js.NotSupportedError
          /\ buffers_requested (new_calls w
               (snd (playVoice isVoiceEnabled (Js.Str base64) w)))
             = [(1, 0, 24000)])).
Proof.
  pose proof (playVoice_cases isVoiceEnabled (Js.Str base64) w) as Hcases.
  assert (Hnone : new_calls w w = []).
  { unfold new_calls. now rewrite skipn_all. }
  pose proof (started_played w (S (S (nextId (snd (acquire w)))))
                (audioContextRef (snd (acquire w))) base64 dataInt16)
    as Hplayed.
  pose proof (dataInt16_of_range _ Hdec) as Hrange.
  split; [split; [now apply dataInt16_of_bytes | exact Hrange]|].
  split; [|split; [|split]].
  - destruct (playVoice isVoiceEnabled (Js.Str base64) w) as [p w'].
    cbn [fst snd] in *. intros args Hin.
    destruct Hcases as [Hno | e Hp He | Hp Hnil | d Hp Hd Hsome];
      cbn [Js.to_string] in *.
    + rewrite Hnone in Hin. contradiction.
    + congruence.
    + assert (dataInt16 = []) by congruence. subst dataInt16.
      erewrite new_calls_past_guard in Hin by reflexivity.
      unfold buffers_requested in Hin. rewrite flat_map_app in Hin.
      destruct (audioContextRef w); simpl in Hin;
        destruct Hin as [<-|[]]; reflexivity.
    + assert (d = dataInt16) by congruence. subst d.
      erewrite new_calls_past_guard in Hin by reflexivity.
      unfold buffers_requested in Hin. rewrite flat_map_app in Hin.
      destruct (audioContextRef w); simpl in Hin;
        destruct Hin as [<-|[]]; reflexivity.
  - destruct (playVoice isVoiceEnabled (Js.Str base64) w) as [p w'].
    cbn [fst snd] in *. intros source Hin.
    destruct Hcases as [Hno | e Hp He | Hp Hnil | d Hp Hd Hsome];
      cbn [Js.to_string] in *.
    + rewrite Hnone in Hin. contradiction.
    + rewrite new_calls_acquire in Hin. contradiction.
    + rewrite new_calls_acquire in Hin. contradiction.
    + assert (d = dataInt16) by congruence. subst d.
      rewrite Hplayed in Hin. destruct Hin as [<-|[]].
      exists (played_buffer (nextId (snd (acquire w))) dataInt16).
      split; [reflexivity|]. split; [reflexivity|]. split; [reflexivity|].
      split; [reflexivity|].
      split; [cbn [played_buffer channels];
              now rewrite normalizedData_of_map|].
      split; [apply normalizedData_of_length|].
      rewrite normalizedData_of_map, map_map.
      apply map_ext_in. intros s Hs.
      rewrite Forall_forall in Hrange. now apply normalize_value, Hrange.
  - intros -> Hsome.
    assert (Hne : base64 <> ""%string).
    { intros ->. vm_compute in Hdec. congruence. }
    rewrite (playVoice_plays w Hne Hdec Hsome). cbn [fst snd].
    split; [reflexivity|]. split; [exact Hplayed|].
    erewrite new_calls_past_guard by reflexivity.
    unfold buffers_requested. rewrite flat_map_app.
    destruct (audioContextRef w); reflexivity.
  - intros Hnot.
    destruct (playVoice isVoiceEnabled (Js.Str base64) w) as [p w'] eqn:Hcall.
    cbn [fst snd] in *.
    destruct Hcases as [Hno | e Hp He | Hp Hnil | d Hp Hd Hsome];
      cbn [Js.to_string] in *.
    + rewrite Hnone. cbn [started contexts_created flat_map List.length].
      split; [reflexivity|]. split; [lia|].
      split; [reflexivity|].
      intros -> Hne. unfold passes in Hno.
      rewrite (truthy_Str Hne) in Hno. discriminate.
    + congruence.
    + unfold passes in Hp. apply andb_true_iff in Hp as [-> Ht].
      split; [apply new_calls_acquire|].
      erewrite new_calls_past_guard by reflexivity.
      unfold with_calls, acquire, contexts_created, buffers_requested.
      split; [destruct (audioContextRef w); cbn; lia|].
      split; [discriminate|].
      intros _ _. split; [reflexivity|].
      destruct (audioContextRef w); reflexivity.
    + unfold passes in Hp. apply andb_true_iff in Hp as [-> Ht].
      assert (d = dataInt16) by congruence. subst d.
      destruct Hnot as [Hoff | Hnil]; [discriminate | contradiction].
Qed.

(** The theorem at the payload ["QUJDRA=="], whose two samples are
    16961 and 17475. *)
Lemma playback_buffer_shape_witness :
  dataInt16_of "QUJDRA==" = Js.Normal [16961; 17475]
  /\ fst (playVoice true (Js.Str "QUJDRA==") initial) = Js.Fulfilled
  /\ started (new_calls initial
                (snd (playVoice true (Js.Str "QUJDRA==") initial)))
     = [played_source (fst (acquire initial)) (nextId (snd (acquire initial)))
          [16961; 17475]]
  /\ map Num.value (normalizedData_of [16961; 17475])
     = [Some (16961 # 32768); Some (17475 # 32768)].
Proof.
  assert (Hdec : dataInt16_of "QUJDRA==" = Js.Normal [16961; 17475])
    by reflexivity.
  split; [exact Hdec|].
  destruct (@playback_buffer_shape true "QUJDRA==" [16961; 17475] initial Hdec)
    as (_ & _ & Hsources & Hplays & _).
  destruct Hplays as (Hdone & Hstarted & _); [reflexivity | discriminate |].
  split; [exact Hdone|]. split; [exact Hstarted|].
  destruct (Hsources _ (or_introl eq_refl :
              In (played_source (fst (acquire initial))
                    (nextId (snd (acquire initial))) [16961; 17475])
                 [played_source (fst (acquire initial))
                    (nextId (snd (acquire initial))) [16961; 17475]]))
    as (buffer & _ & _ & _ & _ & _ & _ & Hvalues).
  exact Hvalues.
Defined.

(** C6 as stated fails: the payload of one space is decoded
    successfully, to no sample, and no playback buffer is constructed:
    [createBuffer], asked for length 0, throws, and the call is
    rejected having constructed the context alone; and the payload
    ["QUJDRA=="] decodes to two samples, yet with voice output disabled
    the call does nothing at all. *)
Lemma decoded_without_buffer :
  dataInt16_of " " = Js.Normal []
  /\ playVoice true (Js.Str " ") initial
     = (Js.Rejected Js.NotSupportedError,
        {| nextId := 1%nat;
           audioContextRef :=
             Some {| ctx_id := 0%nat; ctx_sampleRate := 24000 |};
           calls := [NewAudioContext
                       {| ctx_id := 0%nat; ctx_sampleRate := 24000 |};
                     Atob " "; CreateBuffer 0%nat 1 0 24000] |})
  /\ dataInt16_of "QUJDRA==" = Js.Normal [16961; 17475]
  /\ playVoice false (Js.Str "QUJDRA==") initial = (Js.Fulfilled, initial).
Proof.
  split; [reflexivity|]. split; [reflexivity|].
  split; reflexivity.
Qed.

(** ** The round trip of a known vector *)

(** C7. Base64-encoding the little-endian 16-bit samples
    [0, 16384, -16384, 32767, -32768] gives ["AAAAQADA/38AgA=="];
    decoding that payload gives the samples back, and normalizing them
    gives exactly the floats 0, 0.5, -0.5, 32767/32768 and -1.0, which
    is what [playVoice] puts into the channel of the buffer it plays.
    The same holds of every sequence of 16-bit samples: decoding its
    encoding gives it back, and normalizing gives each sample divided
    by 32768. *)
Theorem round_trip_vector (samples : list Z) :
  Base64.btoa (Pcm.encode Pcm.vector) = "AAAAQADA/38AgA=="%string
  /\ dataInt16_of (Base64.btoa (Pcm.encode Pcm.vector)) = Js.Normal Pcm.vector
  /\ normalizedData_of Pcm.vector = Pcm.expected
  /\ map Num.value Pcm.expected
     = [Some (0 # 1); Some (1 # 2); Some (-1 # 2); Some (32767 # 32768);
        Some (-1 # 1)]
  /\ map (fun source => option_map channels (src_buffer source))
         (started (calls (snd (playVoice true
                                 (Js.Str (Base64.btoa (Pcm.encode Pcm.vector)))
                                 initial))))
     = [Some [Pcm.expected]]
  /\ (Forall (fun s => -32768 <= s <= 32767) samples ->
      dataInt16_of (Base64.btoa (Pcm.encode samples)) = Js.Normal samples
      /\ map Num.value (normalizedData_of samples)
         = map (fun s => Some (Qred (s # 32768))) samples).
Proof.
  split; [vm_compute; reflexivity|].
  split; [vm_compute; reflexivity|].
  split; [vm_compute; reflexivity|].
  split; [vm_compute; reflexivity|].
  split; [vm_compute; reflexivity|].
  intros Hrange. split; [now apply dataInt16_of_encode|].
  rewrite normalizedData_of_map, map_map.
  apply map_ext_in. intros s Hin.
  rewrite Forall_forall in Hrange. now apply normalize_value, Hrange.
Qed.

(** ** generateSenseiVoice *)

Section Voice.

Import Gemini.

Lemma lacks_audio_chain (response : GenerateContentResponse) :
  lacks_audio response = true ->
  audio_chain response = Js.Undefined \/ audio_chain response = Js.Null.
Proof.
  unfold lacks_audio, audio_chain, first, field.
  destruct response as [[[|[[[[[|[[[d]|]] ps]|]]|]] cs]|]]; simpl; auto.
  destruct d; auto; discriminate.
Qed.

(** A response with nothing in it, one whose part has no inline data,
    and one that carries audio. *)
Example generateSenseiVoice_no_candidates :
  lacks_audio (mkResponse None) = true
  /\ generateSenseiVoice (mkResponse None) = Js.Str "".
Proof. split; reflexivity. Qed.

Example generateSenseiVoice_no_inlineData :
  let response :=
    mkResponse (Some [mkCandidate (Some (mkContent (Some [mkPart None])))]) in
  lacks_audio response = true /\ generateSenseiVoice response = Js.Str "".
Proof. split; reflexivity. Qed.

Example generateSenseiVoice_audio :
  let response :=
    mkResponse (Some [mkCandidate (Some (mkContent (Some
      [mkPart (Some (mkBlob (Js.Str "QUJDRA==")))])))]) in
  lacks_audio response = false
  /\ generateSenseiVoice response = Js.Str "QUJDRA==".
Proof. split; reflexivity. Qed.

End Voice.

(** C10. [generateSenseiVoice] returns a string for every response of
    the provider, never [undefined] or [null]; when the response lacks
    candidates, content, parts or inline audio data, the string is
    empty, and [playVoice] on it is a no-op that raises nothing. *)
Theorem generateSenseiVoice_returns_string
    (response : Gemini.GenerateContentResponse)
    (isVoiceEnabled : bool) (w : World) :
  (exists s : string, Gemini.generateSenseiVoice response = Js.Str s)
  /\ (lacks_audio response = true ->
      Gemini.generateSenseiVoice response = Js.Str ""
      /\ playVoice isVoiceEnabled (Gemini.generateSenseiVoice response) w
         = (Js.Fulfilled, w)).
Proof.
  unfold Gemini.generateSenseiVoice, Js.or.
  split.
  - destruct (Gemini.audio_chain response) as [| |[|c s]]; simpl; eauto.
  - intros Hlack.
    destruct (lacks_audio_chain response Hlack) as [-> | ->]; simpl;
      (split; [reflexivity|]); apply playVoice_guard; right; reflexivity.
Qed.

(** ** Sessions: the playback context *)

Section Session.

Lemma playVoice_settles (isVoiceEnabled : bool) (base64 : Js.value) (w : World) :
  fst (playVoice isVoiceEnabled base64 w) = settles isVoiceEnabled base64.
Proof.
  pose proof (playVoice_cases isVoiceEnabled base64 w) as H.
  destruct (playVoice isVoiceEnabled base64 w) as [p w']. cbn [fst snd] in *.
  unfold settles.
  destruct H as [Hno | e Hp He | Hp Hnil | d Hp Hd Hsome];
    rewrite ?Hno, ?Hp, ?He, ?Hnil, ?Hd; try reflexivity.
  destruct d; [congruence | reflexivity].
Qed.

Lemma acquire_ref (w : World) :
  audioContextRef (snd (acquire w)) = Some (fst (acquire w)).
Proof.
  unfold acquire.
  destruct (audioContextRef w) eqn:Href; simpl; [exact Href | reflexivity].
Qed.

Lemma acquire_held (w : World) (c : AudioContext) :
  audioContextRef w = Some c -> acquire w = (c, w).
Proof. unfold acquire. now intros ->. Qed.

Lemma acquire_nextId (w : World) :
  (nextId w <= nextId (snd (acquire w)))%nat.
Proof. unfold acquire. destruct (audioContextRef w); simpl; lia. Qed.

(** The calls a call of [playVoice] adds, once past the guard: the
    construction of the context when the ref is empty, then calls
    that construct none. *)
Lemma playVoice_passes (isVoiceEnabled : bool) (base64 : Js.value) (w : World) :
  passes isVoiceEnabled base64 = true ->
  audioContextRef (snd (playVoice isVoiceEnabled base64 w))
    = Some (fst (acquire w))
  /\ exists rest : list call,
       calls (snd (playVoice isVoiceEnabled base64 w))
         = calls (snd (acquire w)) ++ rest
       /\ contexts_created rest = []
       /\ (nextId (snd (acquire w))
           <= nextId (snd (playVoice isVoiceEnabled base64 w)))%nat
       /\ (forall id, In id (used_ids rest) ->
             (nextId (snd (acquire w)) <= id
              < nextId (snd (playVoice isVoiceEnabled base64 w)))%nat)
       /\ (forall source, In source (started rest) ->
             exists buffer,
               src_buffer source = Some buffer
               /\ src_id source = S (nextId (snd (acquire w)))
               /\ buf_id buffer = nextId (snd (acquire w))
               /\ src_ctx source = ctx_id (fst (acquire w))
               /\ src_output source = Some (ctx_id (fst (acquire w)))).
Proof.
  intros Hpass.
  pose proof (playVoice_cases isVoiceEnabled base64 w) as H.
  destruct (playVoice isVoiceEnabled base64 w) as [p w']. cbn [fst snd] in *.
  destruct H as [Hno | e Hp He | Hp Hnil | d Hp Hd Hsome];
    [congruence | | | ]; cbn [audioContextRef calls nextId with_calls];
    (split; [apply acquire_ref|]).
  - exists [Atob (Js.to_string base64)]. simpl.
    repeat split; try lia; intros ? [].
  - exists [Atob (Js.to_string base64);
            CreateBuffer (ctx_id (fst (acquire w))) 1 0 24000]. simpl.
    repeat split; try lia; intros ? [].
  - exists (playback_calls (fst (acquire w)) (nextId (snd (acquire w)))
              (Js.to_string base64) d).
    split; [reflexivity|]. split; [reflexivity|]. split; [lia|].
    split.
    + simpl. intros id [<-|[<-|[<-|[]]]]; lia.
    + simpl. intros source [<-|[]].
      eexists. repeat split.
Qed.

Lemma consistent_initial : consistent initial.
Proof. split; simpl; [reflexivity | intros ? []]. Qed.

Lemma consistent_acquire (w : World) :
  consistent w -> consistent (snd (acquire w)).
Proof.
  intros [Hone Hids]. unfold acquire.
  destruct (audioContextRef w) as [c|] eqn:Href; cbn [snd].
  - split; [now rewrite Href | exact Hids].
  - split; cbn [calls audioContextRef nextId].
    + unfold contexts_created in *. rewrite flat_map_app, Hone. reflexivity.
    + intros id Hin. unfold used_ids in Hin.
      rewrite flat_map_app in Hin. apply in_app_or in Hin as [Hin|Hin].
      * specialize (Hids id Hin). lia.
      * simpl in Hin. destruct Hin as [<-|[]]. lia.
Qed.

Lemma consistent_step (isVoiceEnabled : bool) (base64 : Js.value) (w : World) :
  consistent w -> consistent (snd (playVoice isVoiceEnabled base64 w)).
Proof.
  intros Hw.
  destruct (passes isVoiceEnabled base64) eqn:Hpass.
  - destruct (@playVoice_passes _ _ w Hpass)
      as (Href & rest & Hcalls & Hctx & Hnext & Hids & _).
    destruct (consistent_acquire Hw) as [Hone1 Hids1].
    split.
    + rewrite Hcalls, Href. unfold contexts_created in *.
      rewrite flat_map_app, Hone1, Hctx, acquire_ref, app_nil_r. reflexivity.
    + intros id Hin. rewrite Hcalls in Hin. unfold used_ids in Hin.
      rewrite flat_map_app in Hin. apply in_app_or in Hin as [Hin|Hin].
      * specialize (Hids1 id Hin). lia.
      * specialize (Hids id Hin). lia.
  - rewrite playVoice_guard; [exact Hw|].
    unfold passes in Hpass. apply andb_false_iff in Hpass. tauto.
Qed.

Lemma consistent_run (session : list (bool * Js.value)) :
  forall w, consistent w -> consistent (run session w).
Proof.
  induction session as [|[e b] rest IH]; intros w Hw; simpl; [exact Hw|].
  apply IH. now apply consistent_step.
Qed.

(** The ref after a session: what it held before, or else the context
    that the first call past the guard constructed. *)
Lemma run_ref (session : list (bool * Js.value)) :
  forall w,
    audioContextRef (run session w) =
      match audioContextRef w with
      | Some c => Some c
      | None =>
          if existsb (fun c => passes (fst c) (snd c)) session
          then Some {| ctx_id := nextId w; ctx_sampleRate := 24000 |}
          else None
      end.
Proof.
  induction session as [|[e b] rest IH]; intros w; simpl.
  - destruct (audioContextRef w); reflexivity.
  - rewrite IH. destruct (passes e b) eqn:Hpass; simpl.
    + destruct (@playVoice_passes _ _ w Hpass) as (Href & _).
      rewrite Href. unfold acquire.
      destruct (audioContextRef w); reflexivity.
    + rewrite playVoice_guard; [reflexivity|].
      unfold passes in Hpass. apply andb_false_iff in Hpass. tauto.
Qed.

(** A session of four calls: a malformed payload, a call with voice
    disabled and two calls that play.  One context, made by the first
    call; two sources, each with a buffer of its own. *)
Example session_of_four :
  let w := run [ (true, Js.Str "!"); (false, Js.Str "QUJDRA==");
                 (true, Js.Str "QUJDRA=="); (true, Js.Str "AAAAQADA/38AgA==") ]
               initial in
  contexts_created (calls w) = [{| ctx_id := 0%nat; ctx_sampleRate := 24000 |}]
  /\ audioContextRef w = Some {| ctx_id := 0%nat; ctx_sampleRate := 24000 |}
  /\ decoded (calls w) = ["!"; "QUJDRA=="; "AAAAQADA/38AgA=="]%string
  /\ map (fun source =>
            (src_id source, option_map buf_id (src_buffer source),
             src_ctx source))
         (started (calls w))
     = [(2, Some 1, 0); (4, Some 3, 0)]%nat.
Proof. vm_compute. repeat split. Qed.

End Session.

(** C8, as the code has it. In every session of the component at most
    one playback context is ever constructed, the one the ref holds:
    it is constructed by the first call that passes the guard of line
    93 (voice enabled, payload not empty), before that call decodes
    anything and whether or not it goes on to play; every later call
    leaves the ref as it is and constructs none, and no call empties
    the ref.  A call that is fulfilled past the guard starts exactly
    one source; the source and its buffer are new objects made on that
    context; and how the promise settles does not depend on the world
    at all. *)
Theorem one_context_per_session (session : list (bool * Js.value))
    (isVoiceEnabled : bool) (base64 : Js.value) :
  let w := run session initial in
  let w' := snd (playVoice isVoiceEnabled base64 w) in
  contexts_created (calls w)
    = match audioContextRef w with Some c => [c] | None => [] end
  /\ audioContextRef w
     = (if existsb (fun c => passes (fst c) (snd c)) session
        then Some {| ctx_id := 0%nat; ctx_sampleRate := 24000 |}
        else None)
  /\ (forall c, audioContextRef w = Some c ->
        audioContextRef w' = Some c
        /\ contexts_created (new_calls w w') = [])
  /\ (audioContextRef w = None -> passes isVoiceEnabled base64 = true ->
        audioContextRef w'
          = Some {| ctx_id := nextId w; ctx_sampleRate := 24000 |}
        /\ contexts_created (new_calls w w')
           = [{| ctx_id := nextId w; ctx_sampleRate := 24000 |}])
  /\ (passes isVoiceEnabled base64 = false -> w' = w)
  /\ (forall source, In source (started (new_calls w w')) ->
        exists buffer c,
          src_buffer source = Some buffer
          /\ audioContextRef w' = Some c
          /\ src_ctx source = ctx_id c
          /\ src_output source = Some (ctx_id c)
          /\ ~ In (src_id source) (used_ids (calls w))
          /\ ~ In (buf_id buffer) (used_ids (calls w))
          /\ src_id source <> buf_id buffer)
  /\ (passes isVoiceEnabled base64 = true ->
      fst (playVoice isVoiceEnabled base64 w) = Js.Fulfilled ->
      exists source, started (new_calls w w') = [source])
  /\ (forall w2 : World,
        fst (playVoice isVoiceEnabled base64 w2)
        = fst (playVoice isVoiceEnabled base64 w)).
Proof.
  intros w w'.
  assert (Hw : consistent w) by (apply consistent_run, consistent_initial).
  assert (Hguard : passes isVoiceEnabled base64 = false -> w' = w).
  { intros Hpass. subst w'. rewrite playVoice_guard; [reflexivity|].
    unfold passes in Hpass. apply andb_false_iff in Hpass. tauto. }
  assert (Hsame : new_calls w w = []) by (unfold new_calls; apply skipn_all).
  split; [exact (one_context Hw)|].
  split; [subst w; now rewrite run_ref|].
  split.
  { intros c Href.
    destruct (passes isVoiceEnabled base64) eqn:Hpass.
    - destruct (@playVoice_passes _ _ w Hpass)
        as (Href' & rest & Hcalls & Hctx & _).
      fold w' in Href', Hcalls.
      rewrite (@new_calls_past_guard w w' rest Hcalls), Href', Href.
      rewrite (@acquire_held w c Href). cbn [fst app]. auto.
    - rewrite (Hguard eq_refl), Hsame. auto. }
  split.
  { intros Href Hpass.
    destruct (@playVoice_passes _ _ w Hpass)
      as (Href' & rest & Hcalls & Hctx & _).
    fold w' in Href', Hcalls.
    rewrite (@new_calls_past_guard w w' rest Hcalls), Href', Href.
    unfold acquire. rewrite Href. cbn [fst].
    unfold contexts_created in *. rewrite flat_map_app, Hctx. auto. }
  split; [exact Hguard|].
  split.
  { intros source Hin.
    destruct (passes isVoiceEnabled base64) eqn:Hpass.
    - destruct (@playVoice_passes _ _ w Hpass)
        as (Href' & rest & Hcalls & _ & _ & _ & Hsrc).
      fold w' in Href', Hcalls.
      rewrite (@new_calls_past_guard w w' rest Hcalls) in Hin.
      unfold started in Hin. rewrite flat_map_app in Hin.
      apply in_app_or in Hin as [Hin|Hin];
        [destruct (audioContextRef w); simpl in Hin; contradiction|].
      destruct (Hsrc source Hin) as (buffer & Hb & Hsid & Hbid & Hctx & Hout).
      exists buffer, (fst (acquire w)).
      pose proof (acquire_nextId w) as Hle.
      pose proof (ids_allocated Hw) as Hids.
      repeat split; try assumption.
      + intros Hused. apply Hids in Hused. lia.
      + intros Hused. apply Hids in Hused. lia.
      + lia.
    - rewrite (Hguard eq_refl), Hsame in Hin. contradiction. }
  split.
  { intros Hpass Hful. subst w'.
    pose proof (playVoice_cases isVoiceEnabled base64 w) as Hcases.
    destruct (playVoice isVoiceEnabled base64 w) as [p w1].
    cbn [fst snd] in *. subst p.
    remember Js.Fulfilled as p eqn:Hp in Hcases.
    destruct Hcases as [Hno | e _ He | _ Hnil | d _ Hd Hsome];
      try congruence.
    eexists. apply started_played. }
  intros w2. now rewrite !playVoice_settles.
Qed.

(** C8 as stated fails: the first call of a session, with the malformed
    payload ["!"], never reaches playback (its promise is rejected and
    nothing is started), and yet the context has been constructed and
    the ref holds it. *)
Lemma context_precedes_decoding :
  playVoice true (Js.Str "!") (run [] initial) =
    (Js.Rejected Js.InvalidCharacterError,
     {| nextId := 1%nat;
        audioContextRef := Some {| ctx_id := 0%nat; ctx_sampleRate := 24000 |};
        calls := [NewAudioContext {| ctx_id := 0%nat; ctx_sampleRate := 24000 |};
                  Atob "!"] |})
  /\ started (calls (run [(true, Js.Str "!")] initial)) = []
  /\ contexts_created (calls (run [(true, Js.Str "!")] initial))
     = [{| ctx_id := 0%nat; ctx_sampleRate := 24000 |}].
Proof. repeat split. Qed.

(** ** The component: blank text *)

Section Blank.

Import Text.

Lemma trimStart_blank (s : string) :
  trimStart s = EmptyString <-> blank s = true.
Proof.
  unfold blank. induction s as [|c r IH]; simpl; [tauto|].
  destruct (is_white_space c); simpl; [exact IH|].
  split; discriminate.
Qed.

Lemma trimEnd_kept (c : ascii) (r : string) :
  is_white_space c = false -> trimEnd (String c r) <> EmptyString.
Proof.
  intros Hc. simpl. rewrite Hc. destruct (trimEnd r); discriminate.
Qed.

Lemma trimStart_head (s : string) (c : ascii) (r : string) :
  trimStart s = String c r -> is_white_space c = false.
Proof.
  induction s as [|d t IH]; simpl; [discriminate|].
  destruct (is_white_space d) eqn:Hd; [exact IH|].
  intros H. injection H as -> _. exact Hd.
Qed.

(** [trim] leaves nothing exactly when there is nothing but white
    space. *)
Lemma trim_blank (s : string) :
  is_empty (trim s) = true <-> blank s = true.
Proof.
  unfold trim. rewrite <- trimStart_blank.
  destruct (trimStart s) as [|c r] eqn:Hs; [simpl; tauto|].
  pose proof (@trimEnd_kept c r (@trimStart_head s c r Hs)) as Hk.
  destruct (trimEnd (String c r)); [contradiction|].
  simpl. split; discriminate.
Qed.

End Blank.

(** ** The component: one handler *)

Section Handlers.

Import App.

Lemma submit_guard (P : Providers) (a : State) :
  problem a = None \/ blank (code a) = true ->
  submitSolution P a = (Done, a).
Proof.
  intros [Hp | Hb]; unfold submitSolution, generateSenseiVoice.
  - now rewrite Hp.
  - apply trim_blank in Hb. rewrite Hb. now destruct (problem a).
Qed.

Lemma ask_guard (P : Providers) (a : State) :
  problem a = None \/ blank (chatMessage a) = true ->
  handleAssistantAsk P a = (Done, a).
Proof.
  intros [Hp | Hb]; unfold handleAssistantAsk, generateSenseiVoice.
  - now rewrite Hp.
  - apply trim_blank in Hb. rewrite Hb. now destruct (problem a).
Qed.

Lemma not_blank (s : string) :
  blank s = false -> Text.is_empty (Text.trim s) = false.
Proof.
  intros Hb. destruct (Text.is_empty (Text.trim s)) eqn:He; [|reflexivity].
  apply trim_blank in He. congruence.
Qed.

End Handlers.

Section Growth.

Lemma app_one_longer {A : Type} (l : list A) (x : A) : l ++ [x] <> l.
Proof.
  intros H. apply (f_equal (@List.length A)) in H.
  rewrite length_app in H. simpl in H. lia.
Qed.

Lemma app_two_longer {A : Type} (l : list A) (x y : A) : (l ++ [x]) ++ [y] <> l.
Proof.
  intros H. apply (f_equal (@List.length A)) in H.
  rewrite !length_app in H. simpl in H. lia.
Qed.

End Growth.

(** X1. [submitSolution] leaves the state as it is, calling no provider,
    exactly when no problem is loaded or the code is blank;
    [handleAssistantAsk] does exactly when no problem is loaded or the
    chat message is blank. *)
Theorem blank_text_is_inert (P : App.Providers) (a : App.State) :
  (App.submitSolution P a = (App.Done, a)
   <-> App.problem a = None \/ blank (App.code a) = true)
  /\ (App.handleAssistantAsk P a = (App.Done, a)
      <-> App.problem a = None \/ blank (App.chatMessage a) = true).
Proof.
  split; (split; [|apply submit_guard || apply ask_guard]).
  - destruct (App.problem a) as [p|] eqn:Hp; [|now left].
    destruct (blank (App.code a)) eqn:Hb; [now right|].
    intros H. exfalso. apply (f_equal (fun r => App.requests (snd r))) in H.
    revert H. unfold App.submitSolution, App.generateSenseiVoice.
    rewrite Hp, (not_blank _ Hb).
    destruct (App.evaluateSolution P p (App.code a) (App.language a)) as [r|];
      cbn; [|apply app_one_longer].
    destruct (App.voiceContent P (App.feedback r)) as [resp|];
      cbn; [|apply app_two_longer].
    destruct (App.isCorrect r); cbn; apply app_two_longer.
  - destruct (App.problem a) as [p|] eqn:Hp; [|now left].
    destruct (blank (App.chatMessage a)) eqn:Hb; [now right|].
    intros H. exfalso. apply (f_equal (fun r => App.requests (snd r))) in H.
    revert H. unfold App.handleAssistantAsk, App.generateSenseiVoice.
    rewrite Hp, (not_blank _ Hb).
    destruct (App.askSenseiHint P p (App.code a) (App.chatMessage a)) as [h|];
      cbn; [|apply app_one_longer].
    destruct (App.voiceContent P h) as [resp|]; cbn; apply app_two_longer.
Qed.



(** X3. A submission that a provider fails to answer goes back to
    CONTEST_READY without an error reaching the caller or the console:
    when the judge fails nothing else changes; when the judge answers
    and the voice provider fails, the result is kept, nothing is
    played, and no XP is awarded even for a correct solution. *)
Theorem submission_unanswered (P : App.Providers) (a : App.State)
    (p : App.CodingProblem)
    (Hproblem : App.problem a = Some p)
    (Hcode : blank (App.code a) = false) :
  let a' := snd (App.submitSolution P a) in
  let judged := App.evaluateSolution P p (App.code a) (App.language a) in
  (judged = App.Failed ->
   fst (App.submitSolution P a) = App.Done
   /\ a' = App.setStatus App.CONTEST_READY
             (App.send (App.EvaluateSolution p (App.code a) (App.language a))
                a))
  /\ (forall r, judged = App.Resolved r ->
      App.voiceContent P (App.feedback r) = App.Failed ->
      fst (App.submitSolution P a) = App.Done
      /\ App.status a' = App.CONTEST_READY
      /\ App.result a' = Some r
      /\ App.stats a' = App.stats a
      /\ App.audio a' = App.audio a
      /\ App.unhandled a' = App.unhandled a
      /\ App.consoleErrors a' = App.consoleErrors a).
Proof.
  unfold App.submitSolution, App.generateSenseiVoice.
  rewrite Hproblem, (not_blank _ Hcode). cbv zeta.
  split.
  - intros ->. cbn. split; [reflexivity|]. destruct a; reflexivity.
  - intros r -> Hvoice. cbn. rewrite Hvoice. cbn. repeat split.
Qed.

(** The theorem at a contest just started, with a voice provider that
    fails: the correct solution earns nothing. *)
Lemma submission_unanswered_witness :
  App.status (snd (App.submitSolution voiceless contest)) = App.CONTEST_READY
  /\ App.result (snd (App.submitSolution voiceless contest))
     = Some sample_result
  /\ App.stats (snd (App.submitSolution voiceless contest))
     = App.stats App.mounted.
Proof.
  destruct (proj2 (@submission_unanswered voiceless contest sample_problem
                     eq_refl eq_refl) sample_result eq_refl eq_refl)
    as (_ & Hstatus & Hresult & Hstats & _).
  split; [exact Hstatus|]. split; [exact Hresult | exact Hstats].
Defined.

Section Awards.

Import App.

Lemma award_invariant (s : UserStats) :
  xp s = 100 * solvedCount s -> streak s = solvedCount s ->
  0 <= solvedCount s -> rank s = Page.rank_at (xp s) ->
  xp (award s) = 100 * solvedCount (award s)
  /\ streak (award s) = solvedCount (award s)
  /\ 0 <= solvedCount (award s)
  /\ rank (award s) = Page.rank_at (xp (award s)).
Proof.
  intros Hxp Hstreak Hpos Hrank. unfold award, Page.rank_at.
  cbn [xp solvedCount streak rank].
  split; [lia|]. split; [lia|]. split; [lia|].
  destruct (Z.gtb_spec (xp s) 500), (Z.gtb_spec (xp s + 100) 600); try lia;
    try reflexivity.
  destruct (Z.gtb_spec (xp s) 200), (Z.gtb_spec (xp s + 100) 300); try lia;
    reflexivity.
Qed.

End Awards.

(** X4. After [n] awards from the stats of a fresh component, the XP is
    [100 n], the solved count and the streak are [n], and the rank is
    the one of the XP before the last award: Novice up to 3 solved
    problems (300 XP), Engineer from 4 to 6 (up to 600 XP) and
    Architect from 7 on. *)
Theorem awards_from_fresh (n : nat) :
  let s := Nat.iter n App.award (App.stats App.mounted) in
  App.xp s = 100 * Z.of_nat n
  /\ App.solvedCount s = Z.of_nat n
  /\ App.streak s = Z.of_nat n
  /\ App.rank s = (if (n <=? 3)%nat then "Novice"
                   else if (n <=? 6)%nat then "Engineer"
                   else "Architect")%string.
Proof.
  cbv zeta.
  assert (H : App.xp (Nat.iter n App.award (App.stats App.mounted))
              = 100 * App.solvedCount (Nat.iter n App.award (App.stats App.mounted))
              /\ App.streak (Nat.iter n App.award (App.stats App.mounted))
                 = App.solvedCount (Nat.iter n App.award (App.stats App.mounted))
              /\ App.solvedCount (Nat.iter n App.award (App.stats App.mounted))
                 = Z.of_nat n
              /\ App.rank (Nat.iter n App.award (App.stats App.mounted))
                 = Page.rank_at
                     (App.xp (Nat.iter n App.award (App.stats App.mounted)))).
  { induction n as [|n (Hxp & Hstreak & Hcount & Hrank)].
    - repeat split.
    - rewrite Nat.iter_succ.
      destruct (@award_invariant _ Hxp Hstreak ltac:(lia) Hrank)
        as (H1 & H2 & _ & H4).
      repeat split; try assumption.
      unfold App.award at 1. cbn [App.solvedCount]. lia. }
  destruct H as (Hxp & Hstreak & Hcount & Hrank).
  rewrite Hcount in Hxp, Hstreak.
  repeat split; try assumption.
  rewrite Hrank, Hxp. unfold Page.rank_at.
  destruct (Nat.leb_spec n 3), (Z.gtb_spec (100 * Z.of_nat n) 600); try lia;
    destruct (Z.gtb_spec (100 * Z.of_nat n) 300); try lia;
    destruct (Nat.leb_spec n 6); try lia; reflexivity.
Qed.



(** X6. [startNewContest] never rejects and never touches the stats,
    the audio, the voice setting, the language or the message being
    typed.  When the provider answers, the problem is loaded, the code
    is the template of the language (Python for "python", JavaScript
    for anything else; neither is blank), the chat holds the greeting
    alone, the result is cleared and the status is CONTEST_READY; when
    it fails, the error goes to the console, the status is IDLE and
    problem, code, chat and result stay. *)
Theorem contest_started (P : App.Providers) (a : App.State) :
  let a' := snd (App.startNewContest P a) in
  fst (App.startNewContest P a) = App.Done
  /\ App.stats a' = App.stats a
  /\ App.audio a' = App.audio a
  /\ App.isVoiceEnabled a' = App.isVoiceEnabled a
  /\ App.language a' = App.language a
  /\ App.chatMessage a' = App.chatMessage a
  /\ App.requests a' = App.requests a ++ [App.GenerateProblem]
  /\ match App.generateProblem P with
     | App.Resolved p =>
         App.status a' = App.CONTEST_READY
         /\ App.problem a' = Some p
         /\ App.result a' = None
         /\ App.chatHistory a' = [App.greeting]
         /\ App.code a' = (if String.eqb (App.language a) "python"
                           then App.pythonTemplate
                           else App.javascriptTemplate)
         /\ blank (App.code a') = false
         /\ App.consoleErrors a' = App.consoleErrors a
     | App.Failed =>
         App.status a' = App.IDLE
         /\ App.problem a' = App.problem a
         /\ App.result a' = App.result a
         /\ App.chatHistory a' = App.chatHistory a
         /\ App.code a' = App.code a
         /\ App.consoleErrors a' = S (App.consoleErrors a)
     end.
Proof.
  unfold App.startNewContest.
  destruct (App.generateProblem P) as [p|]; cbn; repeat split.
  destruct (String.eqb (App.language a) "python"); reflexivity.
Qed.

(** ** The component between events *)

Section Steady.

Import App.

Lemma steady_mounted : steady mounted.
Proof.
  split; cbn; auto; try congruence; try tauto.
  - repeat split. lia.
  - apply consistent_initial.
Qed.

(** The fields that a state shares with the one it comes from. *)
Ltac kept :=
  cbn;
  first [ assumption | reflexivity | tauto
        | solve [intros; congruence]
        | solve [apply consistent_step; assumption]
        | solve [auto] ].

Lemma steady_start (P : Providers) (a : State) :
  steady a -> steady (snd (startNewContest P a)).
Proof.
  intros [Hrest Hprob Hres Hload Hgreet Hlang Hstats Haudio].
  unfold startNewContest.
  destruct (generateProblem P) as [p|]; cbn.
  - split; try kept. intros _. now exists [].
  - split; kept.
Qed.

Lemma steady_submit (P : Providers) (a : State) :
  steady a -> steady (snd (submitSolution P a)).
Proof.
  intros Ha. unfold submitSolution, generateSenseiVoice.
  destruct (problem a) as [p|] eqn:Hp; [|exact Ha].
  destruct (Text.is_empty (Text.trim (code a))); [exact Ha|].
  cbv zeta.
  pose proof Ha as [Hrest Hprob Hres Hload Hgreet Hlang Hstats Haudio].
  assert (Hsome : problem a <> None) by congruence.
  destruct (evaluateSolution P p (code a) (language a)) as [r|]; cbn.
  - destruct (voiceContent P (feedback r)) as [resp|]; cbn.
    + destruct (isCorrect r); cbn; split; try kept.
      destruct Hstats as (H1 & H2 & H3 & H4). now apply award_invariant.
    + split; kept.
  - split; kept.
Qed.

Lemma steady_ask (P : Providers) (a : State) :
  steady a -> steady (snd (handleAssistantAsk P a)).
Proof.
  intros Ha. unfold handleAssistantAsk, generateSenseiVoice.
  destruct (problem a) as [p|] eqn:Hp; [|exact Ha].
  destruct (Text.is_empty (Text.trim (chatMessage a))); [exact Ha|].
  cbv zeta.
  pose proof Ha as [Hrest Hprob Hres Hload Hgreet Hlang Hstats Haudio].
  assert (Hsome : problem a <> None) by congruence.
  destruct (Hgreet Hsome) as (rest & Hhist).
  destruct (askSenseiHint P p (code a) (chatMessage a)) as [h|]; cbn.
  - destruct (voiceContent P h) as [resp|]; cbn;
      (split; try kept); intros _; cbn; rewrite Hhist; eexists; reflexivity.
  - split; try kept. intros _; cbn; rewrite Hhist; eexists; reflexivity.
Qed.

Lemma steady_event (a : State) (e : Page.event) :
  steady a -> Page.rendered a e = true -> steady (Page.handle e a).
Proof.
  intros Ha Hr. destruct e as [P|P|P|key P|v|v|v| |]; cbn [Page.handle].
  - now apply steady_start.
  - now apply steady_submit.
  - now apply steady_ask.
  - unfold handleChatKeyDown. destruct (String.eqb key "Enter");
      [now apply steady_ask | exact Ha].
  - destruct Ha. split; cbn; auto.
    cbn in Hr. apply andb_true_iff in Hr as [_ Hv].
    apply orb_true_iff in Hv as [Hv|Hv]; apply String.eqb_eq in Hv; auto.
  - destruct Ha. split; cbn; auto.
  - destruct Ha. split; cbn; auto.
  - destruct Ha. split; cbn; auto.
  - destruct Ha as [Hrest Hprob Hres Hload Hgreet Hlang Hstats Haudio].
    cbn in Hr. apply andb_true_iff in Hr as [Hpanes Hshown].
    split; cbn; auto; try congruence.
    intros _. apply Hprob. unfold Page.panes in Hpanes.
    destruct (status a); congruence.
Qed.

End Steady.

(** X7. Between two events of a component mounted with nothing saved:
    the status is IDLE, CONTEST_READY or RESULT_READY (never left at
    GENERATING or JUDGING); a problem is loaded whenever the panes are
    shown, and a result whenever the status is RESULT_READY; the
    loading flag is down; the chat of a loaded problem begins with the
    greeting; the XP is 100 times the solved count, the streak equals
    the solved count, and the rank is Novice up to 300 XP, Engineer up
    to 600 and Architect above; and at most one audio context has been
    constructed. *)
Theorem reachable_is_steady (a : App.State) (Hreach : Page.reachable a) :
  steady a.
Proof.
  induction Hreach as [|a e _ IH Hr].
  - apply steady_mounted.
  - now apply steady_event.
Qed.

(** The theorem at the state after a click on the start button, with
    providers that answer. *)
Lemma reachable_is_steady_witness :
  Page.reachable (Page.handle (Page.ClickStart answering) App.mounted)
  /\ steady (Page.handle (Page.ClickStart answering) App.mounted).
Proof.
  assert (H : Page.reachable
                (Page.handle (Page.ClickStart answering) App.mounted)).
  { apply Page.reach_event; [apply Page.reach_mounted | reflexivity]. }
  split; [exact H | exact (reachable_is_steady H)].
Defined.

Section Muted.

Import App.

Lemma muted_event (a : State) (e : Page.event) :
  isVoiceEnabled a = false -> not_toggle e = true ->
  isVoiceEnabled (Page.handle e a) = false
  /\ audio (Page.handle e a) = audio a
  /\ unhandled (Page.handle e a) = unhandled a.
Proof.
  intros Hmuted Hnot.
  assert (Hask : forall P,
            isVoiceEnabled (snd (handleAssistantAsk P a)) = false
            /\ audio (snd (handleAssistantAsk P a)) = audio a
            /\ unhandled (snd (handleAssistantAsk P a)) = unhandled a).
  { intros P. unfold handleAssistantAsk, generateSenseiVoice.
    destruct (problem a) as [p|]; [|auto].
    destruct (Text.is_empty (Text.trim (chatMessage a))); [auto|].
    cbv zeta.
    destruct (askSenseiHint P p (code a) (chatMessage a)) as [h|]; [|cbn; auto].
    destruct (voiceContent P h) as [resp|]; [|cbn; auto].
    cbn. rewrite Hmuted, playVoice_guard by (left; reflexivity). auto. }
  destruct e as [P|P|P|key P|v|v|v| |]; cbn [Page.handle].
  - unfold startNewContest. destruct (generateProblem P); cbn; auto.
  - unfold submitSolution, generateSenseiVoice.
    destruct (problem a) as [p|]; [|auto].
    destruct (Text.is_empty (Text.trim (code a))); [auto|].
    cbv zeta.
    destruct (evaluateSolution P p (code a) (language a)) as [r|]; [|cbn; auto].
    destruct (voiceContent P (feedback r)) as [resp|]; [|cbn; auto].
    destruct (isCorrect r); cbn;
      rewrite Hmuted, playVoice_guard by (left; reflexivity); auto.
  - apply Hask.
  - unfold handleChatKeyDown. destruct (String.eqb key "Enter");
      [apply Hask | auto].
  - cbn; auto.
  - cbn; auto.
  - cbn; auto.
  - discriminate.
  - cbn; auto.
Qed.

End Muted.

(** X8. When handlers run one at a time, each to its end before the
    next event is handled (no handler is under way when the events
    begin, and none is stopped at an [await] while another event is
    handled): while voice output is disabled, no event other than the
    click on the voice button has any effect on the audio.  After any
    list of such events the voice is still disabled, no context has
    been constructed, nothing was decoded or played, and no rejection
    of [playVoice] was left unhandled. *)
Theorem muted_is_silent (a : App.State) (es : list Page.event)
    (Hmuted : App.isVoiceEnabled a = false)
    (Hevents : forallb not_toggle es = true) :
  App.isVoiceEnabled (handle_all es a) = false
  /\ App.audio (handle_all es a) = App.audio a
  /\ App.unhandled (handle_all es a) = App.unhandled a.
Proof.
  revert a Hmuted. induction es as [|e es IH]; intros a Hmuted; [auto|].
  cbn in Hevents. apply andb_true_iff in Hevents as [He Hes].
  destruct (@muted_event a e Hmuted He) as (H1 & H2 & H3).
  unfold handle_all. cbn [fold_left]. fold (handle_all es (Page.handle e a)).
  destruct (IH Hes (Page.handle e a) H1) as (H1' & H2' & H3').
  rewrite H1', H2', H3'. auto.
Qed.

(** The theorem at a muted component: a contest is started, some code
    typed and submitted. *)
Lemma muted_is_silent_witness :
  let a := App.toggleVoice App.mounted in
  let es := [Page.ClickStart answering; Page.ChangeCode "pass";
             Page.ClickSubmit answering] in
  App.status (handle_all es a) = App.RESULT_READY
  /\ App.audio (handle_all es a) = initial.
Proof.
  cbv zeta.
  split; [reflexivity|].
  exact (proj1 (proj2 (@muted_is_silent (App.toggleVoice App.mounted)
           [Page.ClickStart answering; Page.ChangeCode "pass";
            Page.ClickSubmit answering] eq_refl eq_refl))).
Defined.

(** X9. The stats change by one event only: a submission that the judge
    finds correct and whose feedback the voice provider answers, which
    adds the award.  Every other event leaves them as they are, so the
    XP, the solved count and the streak never go down: no event resets
    the streak. *)
Theorem stats_change_only_by_award (a : App.State) (e : Page.event) :
  App.stats (Page.handle e a) = App.stats a
  \/ (App.stats (Page.handle e a) = App.award (App.stats a)
      /\ exists P p r response,
           e = Page.ClickSubmit P
           /\ App.problem a = Some p
           /\ blank (App.code a) = false
           /\ App.evaluateSolution P p (App.code a) (App.language a)
              = App.Resolved r
           /\ App.isCorrect r = true
           /\ App.voiceContent P (App.feedback r)
              = App.Resolved response).
Proof.
  assert (Hask : forall P,
            App.stats (snd (App.handleAssistantAsk P a)) = App.stats a).
  { intros P. unfold App.handleAssistantAsk, App.generateSenseiVoice.
    destruct (App.problem a) as [p|]; [|auto].
    destruct (Text.is_empty (Text.trim (App.chatMessage a))); [auto|].
    cbv zeta.
    destruct (App.askSenseiHint P p (App.code a) (App.chatMessage a)) as [h|];
      [|reflexivity].
    destruct (App.voiceContent P h) as [resp|]; reflexivity. }
  destruct e as [P|P|P|key P|v|v|v| |]; cbn [Page.handle].
  5-9: left; reflexivity.
  - left. unfold App.startNewContest.
    destruct (App.generateProblem P); reflexivity.
  - unfold App.submitSolution, App.generateSenseiVoice.
    destruct (App.problem a) as [p|] eqn:Hp; [|now left].
    destruct (Text.is_empty (Text.trim (App.code a))) eqn:Hb; [now left|].
    cbv zeta.
    destruct (App.evaluateSolution P p (App.code a) (App.language a))
      as [r|] eqn:Hj; [|now left].
    destruct (App.voiceContent P (App.feedback r)) as [resp|] eqn:Hv;
      [|now left].
    destruct (App.isCorrect r) eqn:Hc; [|now left].
    right. split; [reflexivity|].
    exists P, p, r, resp. repeat split; auto.
    destruct (blank (App.code a)) eqn:Hblank; [|reflexivity].
    apply trim_blank in Hblank. congruence.
  - left. apply Hask.
  - left. unfold App.handleChatKeyDown.
    destruct (String.eqb key "Enter"); [apply Hask | reflexivity].
Qed.



Section Resubmission.

Import App.

Lemma submit_correct (P : Providers) (a : State) (p : CodingProblem)
    (r : EvaluationResult) (response : Gemini.GenerateContentResponse) :
  problem a = Some p -> blank (code a) = false ->
  evaluateSolution P p (code a) (language a) = Resolved r ->
  isCorrect r = true ->
  voiceContent P (feedback r) = Resolved response ->
  let a' := snd (submitSolution P a) in
  status a' = RESULT_READY /\ problem a' = Some p /\ code a' = code a
  /\ language a' = language a /\ stats a' = award (stats a).
Proof.
  intros Hp Hb Hj Hc Hv. unfold submitSolution, generateSenseiVoice.
  rewrite Hp, (not_blank _ Hb), Hj. cbn. rewrite Hv, Hc. cbn.
  repeat split. exact Hp.
Qed.

End Resubmission.

(** X11. The submit button stays enabled once a result is shown, and a
    solution that was judged correct can be submitted again as it
    stands: each of [n] clicks in a row is judged anew and adds one
    more award, so the same solution earns [n] times the XP. *)
Theorem resubmission_is_rewarded (P : App.Providers) (a : App.State)
    (p : App.CodingProblem) (r : App.EvaluationResult)
    (response : Gemini.GenerateContentResponse) (n : nat)
    (Hbutton : Page.rendered a (Page.ClickSubmit P) = true)
    (Hproblem : App.problem a = Some p)
    (Hcode : blank (App.code a) = false)
    (Hjudge : App.evaluateSolution P p (App.code a) (App.language a)
              = App.Resolved r)
    (Hcorrect : App.isCorrect r = true)
    (Hvoice : App.voiceContent P (App.feedback r)
              = App.Resolved response) :
  let a' := handle_all (repeat (Page.ClickSubmit P) n) a in
  Page.rendered a' (Page.ClickSubmit P) = true
  /\ App.code a' = App.code a
  /\ App.stats a' = Nat.iter n App.award (App.stats a)
  /\ App.xp (App.stats a') = App.xp (App.stats a) + 100 * Z.of_nat n.
Proof.
  cbv zeta. revert a Hbutton Hproblem Hcode Hjudge.
  induction n as [|n IH]; intros a Hbutton Hproblem Hcode Hjudge.
  - cbn. repeat split; [exact Hbutton | lia].
  - destruct (@submit_correct P a p r response Hproblem Hcode Hjudge Hcorrect
                Hvoice) as (Hs & Hp & Hc & Hl & Hst).
    cbn [repeat]. unfold handle_all. cbn [fold_left Page.handle].
    fold (handle_all (repeat (Page.ClickSubmit P) n)
            (snd (App.submitSolution P a))).
    destruct (IH (snd (App.submitSolution P a))) as (H1 & H2 & H3 & H4).
    + cbn. unfold Page.panes. now rewrite Hs.
    + exact Hp.
    + now rewrite Hc.
    + now rewrite Hc, Hl.
    + split; [exact H1|]. split; [congruence|].
      split; [now rewrite H3, Hst, Nat.iter_succ_r|].
      rewrite H4, Hst. unfold App.award. cbn [App.xp]. lia.
Qed.

(** The theorem at three clicks in a contest just started. *)
Lemma resubmission_is_rewarded_witness :
  App.xp (App.stats (handle_all (repeat (Page.ClickSubmit answering) 3) contest))
  = 300.
Proof.
  exact (proj2 (proj2 (proj2
    (@resubmission_is_rewarded answering contest sample_problem sample_result
       sample_voice 3 eq_refl eq_refl eq_refl eq_refl eq_refl eq_refl)))).
Defined.

(** ** Handlers that overlap *)

Section Overlap.

Import App.









End Overlap.



(** X18. A submission called while voice output is enabled plays its
    feedback even when the voice button is clicked before the judge
    answers: the handler goes on with the [playVoice] of the render it
    was called in.  After the click and the two answers, voice output
    is disabled, the status is RESULT_READY, and the audio is what
    [playVoice], with voice output enabled, makes of the payload. *)
Theorem feedback_outlives_mute (a : App.State) (p : App.CodingProblem)
    (r : App.EvaluationResult) (v : Js.value)
    (Hproblem : App.problem a = Some p)
    (Hcode : blank (App.code a) = false)
    (Hvoice : App.isVoiceEnabled a = true) :
  let pg := Async.run (muted_meanwhile r v) (Async.idle a) in
  App.isVoiceEnabled (Async.state pg) = false
  /\ App.status (Async.state pg) = App.RESULT_READY
  /\ App.result (Async.state pg) = Some r
  /\ App.audio (Async.state pg) = snd (playVoice true v (App.audio a))
  /\ App.requests (Async.state pg)
     = App.requests a
         ++ [App.EvaluateSolution p (App.code a) (App.language a);
             App.GenerateSenseiVoice (App.feedback r)].
Proof.
  cbv zeta.
  cbv [muted_meanwhile Async.run Async.idle fold_left Async.step Async.call
       Async.apply Async.resume Async.state Async.pending
       Async.submitSolution].
  rewrite Hproblem, (not_blank _ Hcode), Hvoice. cbn.
  destruct (App.isCorrect r); cbn; rewrite <- ?app_assoc, ?Hvoice;
    repeat split.
Qed.

(** The theorem at a contest just started: the two samples of
    ["QUJDRA=="] are played although voice output is disabled by
    then. *)
Lemma feedback_outlives_mute_witness :
  let pg := Async.run (muted_meanwhile sample_result (Js.Str "QUJDRA=="))
              (Async.idle contest) in
  App.isVoiceEnabled (Async.state pg) = false
  /\ map (fun source => option_map channels (src_buffer source))
         (started (calls (App.audio (Async.state pg))))
     = [Some [map normalize [16961; 17475]]].
Proof.
  cbv zeta.
  destruct (@feedback_outlives_mute contest sample_problem sample_result
              (Js.Str "QUJDRA==") eq_refl eq_refl eq_refl)
    as (Hoff & _ & _ & Haudio & _).
  split; [exact Hoff|]. rewrite Haudio. reflexivity.
Defined.

Section AtOnce.

Import App.





End AtOnce.


(** ** More on [playVoice] *)

(** X12. Whatever the payload, every value in a channel of a buffer
    that a call of [playVoice] starts is the normalisation of a signed
    16-bit sample [s]: it is exactly [s / 32768] with [s] from -32768
    to 32767, and so lies in the interval from -1 (included) to 1
    (excluded). *)
Theorem played_values_in_range (isVoiceEnabled : bool) (base64 : Js.value)
    (w : World) (source : AudioBufferSourceNode) (buffer : AudioBuffer)
    (channel : list Num.float32) (f : Num.float32)
    (Hsource : In source (started (new_calls w
                 (snd (playVoice isVoiceEnabled base64 w)))))
    (Hbuffer : src_buffer source = Some buffer)
    (Hchannel : In channel (channels buffer))
    (Hf : In f channel) :
  exists s : Z,
    -32768 <= s <= 32767
    /\ f = normalize s
    /\ Num.value f = Some (Qred (s # 32768))
    /\ (-1 <= s # 32768)%Q /\ (s # 32768 < 1)%Q.
Proof.
  pose proof (playVoice_cases isVoiceEnabled base64 w) as Hcases.
  destruct (playVoice isVoiceEnabled base64 w) as [p w'].
  cbn [fst snd] in *.
  destruct Hcases as [Hno | e Hp He | Hp Hnil | d Hp Hd Hsome].
  - unfold new_calls in Hsource. rewrite skipn_all in Hsource. contradiction.
  - rewrite new_calls_acquire in Hsource. contradiction.
  - rewrite new_calls_acquire in Hsource. contradiction.
  - rewrite started_played in Hsource. destruct Hsource as [<-|[]].
    cbn in Hbuffer. injection Hbuffer as <-.
    cbn in Hchannel. destruct Hchannel as [<-|[]].
    apply in_map_iff in Hf as (s & <- & Hs).
    pose proof (dataInt16_of_range _ Hd) as Hrange.
    rewrite Forall_forall in Hrange. specialize (Hrange s Hs).
    exists s. split; [exact Hrange|]. split; [reflexivity|].
    split; [now apply normalize_value|].
    split; [unfold Qle | unfold Qlt]; simpl; lia.
Qed.

(** The theorem at the second sample of the payload ["QUJDRA=="]. *)
Lemma played_values_in_range_witness :
  exists s : Z,
    -32768 <= s <= 32767
    /\ normalize 17475 = normalize s
    /\ Num.value (normalize 17475) = Some (Qred (s # 32768))
    /\ (-1 <= s # 32768)%Q /\ (s # 32768 < 1)%Q.
Proof.
  apply (@played_values_in_range true (Js.Str "QUJDRA==") initial
           (played_source (fst (acquire initial)) (nextId (snd (acquire initial)))
              [16961; 17475])
           (played_buffer (nextId (snd (acquire initial))) [16961; 17475])
           (map normalize [16961; 17475]) (normalize 17475)).
  - vm_compute. left. reflexivity.
  - reflexivity.
  - left. reflexivity.
  - right. left. reflexivity.
Defined.

Section Whitespace.

Lemma remove_whitespace_all (l : list ascii) :
  forallb Base64.is_ascii_whitespace l = true ->
  Base64.remove_whitespace l = [].
Proof.
  unfold Base64.remove_whitespace.
  induction l as [|c l IH]; [reflexivity|]. cbn.
  intros H. apply andb_true_iff in H as [Hc Hl].
  rewrite Hc. cbn. now apply IH.
Qed.

End Whitespace.

(** X13. A payload that is not empty and holds ASCII white space alone
    gets past the guard and decodes to the empty string; the promise
    is then rejected with NotSupportedError by [createBuffer], asked
    for a buffer of length 0.  The context constructed for the call is
    kept, and nothing is played. *)
Theorem whitespace_payload_is_rejected (base64 : string) (w : World)
    (Hsome : base64 <> ""%string)
    (Hspace : forallb Base64.is_ascii_whitespace (list_ascii_of_string base64)
              = true) :
  Base64.atob base64 = Js.Normal ""%string
  /\ playVoice true (Js.Str base64) w =
       (Js.Rejected Js.NotSupportedError,
        with_calls (snd (acquire w))
          [Atob base64; CreateBuffer (ctx_id (fst (acquire w))) 1 0 24000])
  /\ audioContextRef (snd (playVoice true (Js.Str base64) w))
     = Some (fst (acquire w))
  /\ started (new_calls w (snd (playVoice true (Js.Str base64) w))) = [].
Proof.
  assert (Hdec : Base64.atob base64 = Js.Normal ""%string).
  { unfold Base64.atob, Base64.forgiving_decode.
    now rewrite (remove_whitespace_all _ Hspace). }
  split; [exact Hdec|].
  assert (Hplay : playVoice true (Js.Str base64) w =
       (Js.Rejected Js.NotSupportedError,
        with_calls (snd (acquire w))
          [Atob base64; CreateBuffer (ctx_id (fst (acquire w))) 1 0 24000])).
  { rewrite (playVoice_enabled _ w (truthy_Str Hsome)). cbn [Js.to_string].
    destruct (acquire w) as [ctx w1]. cbv zeta. rewrite Hdec. reflexivity. }
  rewrite Hplay. cbn [snd]. split; [reflexivity|].
  split; [apply acquire_ref | apply new_calls_acquire].
Qed.

(** The theorem at the payload of one space. *)
Lemma whitespace_payload_is_rejected_witness :
  playVoice true (Js.Str " ") initial =
    (Js.Rejected Js.NotSupportedError,
     with_calls (snd (acquire initial))
       [Atob " "; CreateBuffer (ctx_id (fst (acquire initial))) 1 0 24000]).
Proof.
  assert (Hsome : " "%string <> ""%string) by discriminate.
  exact (proj1 (proj2 (@whitespace_payload_is_rejected " " initial Hsome
                         eq_refl))).
Defined.

(** X14. Normalisation is strictly increasing on the signed 16-bit
    range: of two samples the smaller one gives the smaller value, so
    distinct samples never give the same float. *)
Theorem normalize_is_increasing (s1 s2 : Z)
    (Hlow : -32768 <= s1) (Hlt : s1 < s2) (Hhigh : s2 <= 32767) :
  exists q1 q2 : Q,
    Num.value (normalize s1) = Some q1
    /\ Num.value (normalize s2) = Some q2
    /\ (q1 < q2)%Q
    /\ normalize s1 <> normalize s2.
Proof.
  assert (H1 : Num.value (normalize s1) = Some (Qred (s1 # 32768)))
    by (apply normalize_value; lia).
  assert (H2 : Num.value (normalize s2) = Some (Qred (s2 # 32768)))
    by (apply normalize_value; lia).
  assert (Hq : (Qred (s1 # 32768) < Qred (s2 # 32768))%Q).
  { rewrite !Qred_correct. unfold Qlt. simpl. lia. }
  exists (Qred (s1 # 32768)), (Qred (s2 # 32768)).
  repeat split; try assumption.
  intros Heq.
  assert (Hsame : Qred (s1 # 32768) = Qred (s2 # 32768)) by congruence.
  rewrite Hsame in Hq. now apply Qlt_irrefl in Hq.
Qed.

(** The theorem at the samples -1 and 0. *)
Lemma normalize_is_increasing_witness :
  exists q1 q2 : Q,
    Num.value (normalize (-1)) = Some q1
    /\ Num.value (normalize 0) = Some q2
    /\ (q1 < q2)%Q
    /\ normalize (-1) <> normalize 0.
Proof.
  apply (@normalize_is_increasing (-1) 0); lia.
Defined.

Section Causes.

Import TypedArray.

Lemma int16_elements_nil (buffer : list Z) :
  Z.of_nat (List.length buffer) mod 2 = 0 ->
  int16_elements buffer = [] -> buffer = [].
Proof.
  intros Heven Hnil.
  destruct buffer as [|x [|y l]]; [reflexivity| |discriminate].
  discriminate Heven.
Qed.

Lemma Uint8Array_from_nil (binary : string) :
  Uint8Array_from binary = [] -> binary = ""%string.
Proof. destruct binary; [reflexivity | discriminate]. Qed.

(** Why the decode step throws, or yields no sample. *)
Lemma dataInt16_of_cases (data : string) :
  match dataInt16_of data with
  | Js.Throw e =>
      (e = Js.InvalidCharacterError /\ Base64.forgiving_decode data = None)
      \/ (e = Js.RangeError
          /\ exists binary, Base64.forgiving_decode data = Some binary
                            /\ Nat.odd (String.length binary) = true)
  | Js.Normal [] => Base64.forgiving_decode data = Some ""%string
  | Js.Normal (_ :: _) => True
  end.
Proof.
  unfold dataInt16_of, Base64.atob.
  destruct (Base64.forgiving_decode data) as [binary|]; [|now left].
  unfold Int16Array_of_buffer.
  destruct (Z.eqb_spec (Z.of_nat (List.length (Uint8Array_from binary)) mod 2) 0)
    as [Heven|Hodd].
  - destruct (int16_elements (Uint8Array_from binary)) eqn:Hel; [|exact I].
    now rewrite (Uint8Array_from_nil _ (int16_elements_nil _ Heven Hel)).
  - right. split; [reflexivity|]. exists binary. split; [reflexivity|].
    rewrite Uint8Array_from_length in Hodd.
    rewrite <- Nat.negb_even. apply negb_true_iff.
    destruct (Nat.even (String.length binary)) eqn:He; [|reflexivity].
    apply Nat.even_spec in He as [k Hk]. exfalso. apply Hodd.
    rewrite Hk, Nat2Z.inj_mul, Z.mul_comm. apply Z_mod_mult.
Qed.

End Causes.

Section Pages.

(** With a context at hand, the page makes no difference. *)
Lemma playVoice_available (win : Window.t) (isVoiceEnabled : bool)
    (base64 : Js.value) (w : World) :
  Window.available win w = true ->
  Window.playVoice win isVoiceEnabled base64 w
  = playVoice isVoiceEnabled base64 w.
Proof.
  unfold Window.available, Window.playVoice, playVoice, async.
  destruct (negb isVoiceEnabled || negb (Js.truthy base64)); [reflexivity|].
  destruct w as [n [c|] cs]; cbn [audioContextRef]; [reflexivity|].
  unfold Window.new_AudioContext.
  destruct (Window.audioContextClass win) as [[|e]|];
    [reflexivity | discriminate | discriminate].
Qed.

(** With none, a call that gets past the guard stops at line 96. *)
Lemma playVoice_unavailable (win : Window.t) (base64 : Js.value) (w : World) :
  Js.truthy base64 = true ->
  Window.available win w = false ->
  Window.playVoice win true base64 w
  = (Js.Rejected match Window.audioContextClass win with
                 | Some (Window.Throws e) => e
                 | _ => Js.TypeError
                 end, w).
Proof.
  intros Ht. unfold Window.available, Window.playVoice, async.
  rewrite Ht. cbn [negb orb].
  destruct w as [n [c|] cs]; cbn [audioContextRef]; [discriminate|].
  unfold Window.new_AudioContext.
  destruct (Window.audioContextClass win) as [[|e]|];
    [discriminate | reflexivity | reflexivity].
Qed.

End Pages.

(** X15. On a page that has [AudioContext], [webkitAudioContext] or
    neither, the promise of [playVoice] is rejected only when voice is
    enabled and the payload is truthy, and a rejected call plays
    nothing.  Either line 96 threw, the ref holding no context: a
    TypeError when the page has neither constructor, or what the
    constructor threw; the ref then stays empty and nothing was
    decoded or recorded.  Or a context is held after the call, and the
    cause is one of three: InvalidCharacterError when the payload is
    not base64, RangeError when it decodes to an odd number of bytes,
    and NotSupportedError when it decodes to no byte at all. *)
Theorem rejection_causes (win : Window.t) (isVoiceEnabled : bool)
    (base64 : Js.value) (w : World) (e : Js.error)
    (Hrejected : fst (Window.playVoice win isVoiceEnabled base64 w)
                 = Js.Rejected e) :
  isVoiceEnabled = true
  /\ Js.truthy base64 = true
  /\ started (new_calls w (snd (Window.playVoice win isVoiceEnabled base64 w)))
     = []
  /\ ((audioContextRef w = None
       /\ ((Window.audioContextClass win = None /\ e = Js.TypeError)
           \/ Window.audioContextClass win = Some (Window.Throws e))
       /\ snd (Window.playVoice win isVoiceEnabled base64 w) = w)
      \/ ((audioContextRef w <> None
           \/ Window.audioContextClass win = Some Window.Constructs)
          /\ audioContextRef
               (snd (Window.playVoice win isVoiceEnabled base64 w)) <> None
          /\ ((e = Js.InvalidCharacterError
               /\ Base64.forgiving_decode (Js.to_string base64) = None)
              \/ (e = Js.RangeError
                  /\ exists binary,
                       Base64.forgiving_decode (Js.to_string base64)
                       = Some binary
                       /\ Nat.odd (String.length binary) = true)
              \/ (e = Js.NotSupportedError
                  /\ Base64.forgiving_decode (Js.to_string base64)
                     = Some ""%string)))).
Proof.
  destruct (Window.available win w) eqn:Hav.
  - rewrite (@playVoice_available win isVoiceEnabled base64 w Hav) in *.
    assert (Hheld : audioContextRef w <> None
                    \/ Window.audioContextClass win = Some Window.Constructs).
    { unfold Window.available in Hav.
      destruct (audioContextRef w); [left; discriminate|].
      destruct (Window.audioContextClass win) as [[|e0]|];
        [right; reflexivity | discriminate | discriminate]. }
    pose proof (playVoice_cases isVoiceEnabled base64 w) as Hcases.
    pose proof (dataInt16_of_cases (Js.to_string base64)) as Hwhy.
    destruct (playVoice isVoiceEnabled base64 w) as [p w'].
    cbn [fst snd] in *. subst p.
    remember (Js.Rejected e) as p eqn:Hp in Hcases.
    destruct Hcases as [Hno | e' Hpass He | Hpass Hnil | d Hpass Hd Hsome];
      try discriminate; injection Hp as <-;
      unfold passes in Hpass; apply andb_true_iff in Hpass as [-> Ht].
    + rewrite He in Hwhy.
      split; [reflexivity|]. split; [exact Ht|].
      split; [apply new_calls_acquire|].
      right. split; [exact Hheld|].
      split; [cbn; rewrite acquire_ref; discriminate|].
      destruct Hwhy as [H|H]; [left | right; left]; exact H.
    + rewrite Hnil in Hwhy.
      split; [reflexivity|]. split; [exact Ht|].
      split; [apply new_calls_acquire|].
      right. split; [exact Hheld|].
      split; [cbn; rewrite acquire_ref; discriminate|].
      right; right; split; [reflexivity | exact Hwhy].
  - destruct isVoiceEnabled.
    + destruct (Js.truthy base64) eqn:Ht.
      * rewrite (@playVoice_unavailable win base64 w Ht Hav) in *.
        cbn [fst snd] in *.
        split; [reflexivity|]. split; [reflexivity|].
        split; [unfold new_calls; now rewrite skipn_all|].
        left. unfold Window.available in Hav.
        destruct (audioContextRef w); [discriminate|].
        split; [reflexivity|]. split; [|reflexivity].
        destruct (Window.audioContextClass win) as [[|e0]|];
          [discriminate | right | left; split; [reflexivity|]];
          congruence.
      * unfold Window.playVoice, async in Hrejected.
        rewrite Ht in Hrejected. discriminate.
    + discriminate.
Qed.

(** The theorem at a page with neither constructor. *)
Lemma rejection_causes_witness :
  fst (Window.playVoice Window.bare true (Js.Str "QUJDRA==") initial)
  = Js.Rejected Js.TypeError
  /\ snd (Window.playVoice Window.bare true (Js.Str "QUJDRA==") initial)
     = initial.
Proof.
  assert (H : fst (Window.playVoice Window.bare true (Js.Str "QUJDRA==")
                     initial) = Js.Rejected Js.TypeError) by reflexivity.
  split; [exact H|].
  destruct (@rejection_causes Window.bare true (Js.Str "QUJDRA==") initial
              Js.TypeError H) as (_ & _ & _ & [(_ & _ & Hsame) | (_ & Hheld & _)]).
  - exact Hsame.
  - reflexivity.
Defined.

Section Accounting.

Lemma sounds_step (isVoiceEnabled : bool) (base64 : Js.value) (w : World) :
  let w' := snd (playVoice isVoiceEnabled base64 w) in
  List.length (started (calls w'))
  = (List.length (started (calls w))
     + if sounds (isVoiceEnabled, base64) then 1 else 0)%nat
  /\ List.length (decoded (calls w'))
     = (List.length (decoded (calls w))
        + if passes isVoiceEnabled base64 then 1 else 0)%nat
  /\ (nextId w' + List.length (contexts_created (calls w))
      + 2 * List.length (started (calls w))
      = nextId w + List.length (contexts_created (calls w'))
        + 2 * List.length (started (calls w')))%nat.
Proof.
  cbv zeta. unfold sounds. cbn [fst snd].
  rewrite <- (playVoice_settles isVoiceEnabled base64 w).
  pose proof (playVoice_cases isVoiceEnabled base64 w) as Hcases.
  destruct (playVoice isVoiceEnabled base64 w) as [p w'].
  cbn [fst snd] in *.
  assert (Hacq : calls (snd (acquire w)) = calls w ++
                   match audioContextRef w with
                   | Some _ => []
                   | None => [NewAudioContext (fst (acquire w))]
                   end) by apply acquire_calls.
  assert (Hid : nextId (snd (acquire w))
                = (nextId w + match audioContextRef w with
                              | Some _ => 0 | None => 1 end)%nat).
  { unfold acquire. destruct (audioContextRef w); cbn; lia. }
  destruct Hcases as [Hno | e' Hpass He | Hpass Hnil | d Hpass Hd Hsome];
    rewrite ?Hno, ?Hpass; cbn [andb];
    unfold with_calls; cbn [calls nextId];
    rewrite ?Hacq, ?Hid; unfold started, decoded, contexts_created;
    rewrite ?flat_map_app, ?length_app;
    destruct (audioContextRef w); cbn; lia.
Qed.

End Accounting.

(** X16. In a session from a fresh page, the sources started are as
    many as the calls that get past the guard and are fulfilled, and
    the payloads decoded as many as the calls that get past the guard;
    the objects constructed are the contexts and, for each source
    started, the source and its buffer; and at most one context is
    constructed. *)
Theorem session_accounting (session : list (bool * Js.value)) :
  let w := run session initial in
  List.length (started (calls w)) = List.length (filter sounds session)
  /\ List.length (decoded (calls w))
     = List.length (filter (fun c => passes (fst c) (snd c)) session)
  /\ nextId w = (List.length (contexts_created (calls w))
                 + 2 * List.length (started (calls w)))%nat
  /\ (List.length (contexts_created (calls w)) <= 1)%nat.
Proof.
  cbv zeta.
  assert (H : forall w0,
    List.length (started (calls (run session w0)))
    = (List.length (started (calls w0)) + List.length (filter sounds session))%nat
    /\ List.length (decoded (calls (run session w0)))
       = (List.length (decoded (calls w0))
          + List.length (filter (fun c => passes (fst c) (snd c)) session))%nat
    /\ (nextId (run session w0) + List.length (contexts_created (calls w0))
        + 2 * List.length (started (calls w0))
        = nextId w0 + List.length (contexts_created (calls (run session w0)))
          + 2 * List.length (started (calls (run session w0))))%nat).
  { induction session as [|[e b] rest IH]; intros w0; [cbn; lia|].
    cbn [run filter].
    destruct (sounds_step e b w0) as (H1 & H2 & H3).
    destruct (IH (snd (playVoice e b w0))) as (H1' & H2' & H3').
    cbn [fst snd] in *.
    destruct (sounds (e, b)), (passes e b); cbn [List.length]; lia. }
  destruct (H initial) as (H1 & H2 & H3). cbn in H1, H2, H3.
  pose proof (consistent_run session consistent_initial) as [Hone _].
  repeat split; try lia.
  rewrite Hone. destruct (audioContextRef (run session initial)); cbn; lia.
Qed.
